(** * NanoClaw: the Discord channel adapter and the upstream-sync task producer

    A shallow embedding of [src/channels/discord.ts] (class [DiscordChannel])
    and of the [write_ipc_task] function of the upstream-sync shell script,
    followed by the properties the specification states about them.

    - [JS]            the string primitives of ECMAScript the adapter uses;
    - [Discord]       the adapter: inbound handler, [sendMessage], [ownsJid],
                      [setTyping];
    - [SyncUpstream]  the task-file producer of the shell script. *)

From Stdlib Require Import ZArith NArith List Bool Ascii String Lia.
From Stdlib Require Import Numbers.DecimalString Numbers.DecimalPos Numbers.DecimalZ.
From stdpp Require Import base option list gmap strings.
From Equations Require Import Equations.
From Equations.Prop Require Import Logic.
Import ListNotations.

(* ===================================================================== *)
(** ** ECMAScript strings *)
(* ===================================================================== *)

Module JS.

(** A JavaScript string is a sequence of UTF-16 code units; [.length] and
    [.slice] count code units, not characters. *)
Definition codeunit := N.
Definition jsstring := list codeunit.

(** An ASCII literal of the source as a JavaScript string. *)
Fixpoint lit (s : string) : jsstring :=
  match s with
  | EmptyString => []
  | String a s' => N_of_ascii a :: lit s'
  end.

(** [s.length] *)
Definition jslength (s : jsstring) : Z := Z.of_nat (length s).

(** ToBoolean on a string: only the empty string is falsy. *)
Definition truthy (s : jsstring) : bool :=
  match s with [] => false | _ :: _ => true end.

(** ToBoolean on [string | null | undefined]. *)
Definition truthy_opt (o : option jsstring) : bool :=
  match o with None => false | Some s => truthy s end.

(** The relative-index clamping shared by [slice]'s two arguments. *)
Definition clamp_index (len i : Z) : Z :=
  if (i <? 0)%Z then Z.max (len + i) 0 else Z.min i len.

(** [s.slice(start, end)]; [end_ = None] is the one-argument call. *)
Definition slice (s : jsstring) (start : Z) (end_ : option Z) : jsstring :=
  let len := jslength s in
  let from := clamp_index len start in
  let to := match end_ with None => len | Some e => clamp_index len e end in
  let span := Z.max (to - from) 0 in
  take (Z.to_nat span) (drop (Z.to_nat from) s).

(** [s.startsWith(search)], position argument omitted (0). *)
Fixpoint startsWith (s search : jsstring) : bool :=
  match search, s with
  | [], _ => true
  | _ :: _, [] => false
  | c :: search', d :: s' => (c =? d)%N && startsWith s' search'
  end.

(** [s.replace(/^pat/, repl)] for a regular expression that is a start
    anchor followed by a literal, without flags, and a replacement string
    without [$] patterns: the only candidate match is at index 0, and at
    most one match is replaced. *)
Definition replace_anchored (s pat repl : jsstring) : jsstring :=
  if startsWith s pat then repl ++ drop (length pat) s else s.

(** [a || b] on strings that may be absent: the first operand when it is
    truthy, the second otherwise. *)
Definition or_else (a b : option jsstring) : option jsstring :=
  if truthy_opt a then a else b.

(** [a || b] where the right operand is always a string. *)
Definition or_string (a : option jsstring) (b : jsstring) : jsstring :=
  match a with
  | Some s => if truthy s then s else b
  | None => b
  end.

End JS.

(* ===================================================================== *)
(** ** The Discord adapter *)
(* ===================================================================== *)

Module Discord.
Import JS.

Definition MAX_MESSAGE_LENGTH : Z := 2000.

(** The while loop of [sendMessage]:
    [while (remaining.length > 0) { chunks.push(remaining.slice(0, MAX));
                                    remaining = remaining.slice(MAX); }] *)
Equations? chunk_loop (remaining : jsstring) (chunks : list jsstring)
  : list jsstring by wf (length remaining) lt :=
  chunk_loop remaining chunks with inspect (0 <? jslength remaining)%Z => {
    | exist _ true _ =>
        chunk_loop (slice remaining MAX_MESSAGE_LENGTH None)
                   (chunks ++ [slice remaining 0 (Some MAX_MESSAGE_LENGTH)]);
    | exist _ false _ => chunks }.
Proof.
  unfold slice, clamp_index, jslength, MAX_MESSAGE_LENGTH in *.
  change (2000 <? 0)%Z with false; cbv iota.
  rewrite length_take, length_drop.
  apply Z.ltb_lt in e. lia.
Qed.

(** *** Platform objects *)

(** What the adapter looks at in a discord.js channel object: whether it is
    an instance of [TextChannel], and then its name. *)
Inductive channel :=
| TextChannel (name : jsstring)
| OtherChannel.

Record User := {
  user_id : jsstring;
  bot : bool;
  globalName : option jsstring;
  username : jsstring }.

Record GuildMember := { displayName : jsstring }.

Record Date := { toISOString : jsstring }.

(** The fields of a discord.js [Message] the handler reads. *)
Record Message := {
  id : jsstring;
  author : User;
  member : option GuildMember;
  guildId : option jsstring;
  channelId : jsstring;
  content : jsstring;
  createdAt : Date;
  message_channel : channel }.

(** The object literal handed to [onMessage]. *)
Record NewMessage := {
  msg_id : jsstring;
  chat_jid : jsstring;
  sender : jsstring;
  sender_name : jsstring;
  msg_content : jsstring;
  timestamp : jsstring;
  is_from_me : bool;
  is_bot_message : bool }.

(** *** Effects

    Every call that leaves the adapter is recorded, in order, in a trace:
    the two router callbacks, the calls into the platform client, and the
    logger calls (level, the chat identifier of the context object and the
    message; the other context fields are not recorded).  The callbacks and
    the logger are taken to return normally. *)

Inductive log_level := Debug | Info | Warn | Error.

Inductive event :=
| OnChatMetadata (chatJid timestamp name channel : jsstring) (isDirect : bool)
| OnMessage (chatJid : jsstring) (message : NewMessage)
| ChannelsFetch (channelId : jsstring)
| ChannelSend (ch : channel) (content : jsstring)
| ChannelSendTyping (ch : channel)
| Log (level : log_level) (jid : jsstring) (text : string).

Definition trace := list event.

(** A thrown value or the reason of a rejected promise. *)
Inductive js_error := JsError (message : string).

Inductive completion (A : Type) :=
| Normal (value : A)
| Throw (err : js_error).
Arguments Normal {A} value.
Arguments Throw {A} err.

(** A computation runs after the calls made so far and either returns or
    throws, having extended the trace.  An awaited promise that rejects
    throws at the [await]. *)
Definition Eff (A : Type) : Type := trace -> completion A * trace.

Definition ret {A} (a : A) : Eff A := fun tr => (Normal a, tr).

Definition bind {A B} (m : Eff A) (k : A -> Eff B) : Eff B :=
  fun tr =>
    match m tr with
    | (Normal a, tr') => k a tr'
    | (Throw err, tr') => (Throw err, tr')
    end.

Definition emit (e : event) : Eff unit := fun tr => (Normal tt, tr ++ [e]).

(** [try { body } catch (err) { handler }] *)
Definition try_catch {A} (body : Eff A) (handler : js_error -> Eff A) : Eff A :=
  fun tr =>
    match body tr with
    | (Normal a, tr') => (Normal a, tr')
    | (Throw err, tr') => handler err tr'
    end.

#[global] Instance Eff_ret : MRet Eff := @ret.
#[global] Instance Eff_bind : MBind Eff := fun A B k m => bind m k.

(** [for (const x of l) { await body(x) }] *)
Fixpoint for_each {A} (l : list A) (body : A -> Eff unit) : Eff unit :=
  match l with
  | [] => ret tt
  | x :: l' => body x ;; for_each l' body
  end.

(** Running a computation from the empty trace. *)
Definition result_of {A} (m : Eff A) : completion A := fst (m []).
Definition calls_of {A} (m : Eff A) : trace := snd (m []).

(** The platform client as the adapter sees it: how each call settles,
    which may depend on everything that happened before. *)
Record Client := {
  fetch_reply : trace -> jsstring -> completion (option channel);
  send_reply : trace -> channel -> jsstring -> completion unit;
  sendTyping_reply : trace -> channel -> completion unit }.

(** [await client.channels.fetch(id)] *)
Definition channels_fetch (c : Client) (id : jsstring) : Eff (option channel) :=
  fun tr => (fetch_reply c tr id, tr ++ [ChannelsFetch id]).

(** [await channel.send(content)] *)
Definition channel_send (c : Client) (ch : channel) (text : jsstring) : Eff unit :=
  fun tr => (send_reply c tr ch text, tr ++ [ChannelSend ch text]).

(** [await channel.sendTyping()] *)
Definition channel_sendTyping (c : Client) (ch : channel) : Eff unit :=
  fun tr => (sendTyping_reply c tr ch, tr ++ [ChannelSendTyping ch]).

Definition logger (level : log_level) (jid : jsstring) (text : string) : Eff unit :=
  emit (Log level jid text).

(** The mutable fields of the class that the methods below read. *)
Record DiscordChannel := {
  client : option Client;
  connected : bool }.

(** *** The adapter's methods *)

Section Adapter.

(** [ASSISTANT_NAME] is imported from [config.js] and [RegisteredGroup]
    from [types.js]; the adapter fixes neither. *)
Variable ASSISTANT_NAME : jsstring.
Variable RegisteredGroup : Type.

(** [message.member?.displayName || message.author.globalName
     || message.author.username] *)
Definition senderName (message : Message) : jsstring :=
  or_string
    (or_else (displayName <$> member message) (globalName (author message)))
    (username (author message)).

(** [`dc:${message.channelId}`] *)
Definition chatJid_of (message : Message) : jsstring :=
  lit "dc:" ++ channelId message.

(** The [Events.MessageCreate] handler.  [groups] is what
    [this.opts.registeredGroups()] returns when the event is handled; its
    values are objects, so a present key is truthy, and no inherited
    property of a plain object has a name that starts with [dc:], so the
    property read is a lookup among the record's own keys. *)
Definition onMessageCreate (groups : gmap jsstring RegisteredGroup)
    (message : Message) : Eff unit :=
  if bot (author message) then ret tt
  else if negb (truthy_opt (guildId message))
          || negb (truthy (channelId message)) then ret tt
  else
    let chatJid := chatJid_of message in
    let timestamp := toISOString (createdAt message) in
    let senderName := senderName message in
    let sender := user_id (author message) in
    let content := content message in
    if negb (truthy content) then ret tt
    else
      let channelName :=
        match message_channel message with
        | TextChannel name => lit "#" ++ name
        | OtherChannel => chatJid
        end in
      emit (OnChatMetadata chatJid timestamp channelName (lit "discord") false) ;;
      match groups !! chatJid with
      | None =>
          logger Debug chatJid "Message from unregistered Discord channel"
      | Some _ =>
          emit (OnMessage chatJid
                  {| msg_id := id message;
                     chat_jid := chatJid;
                     sender := sender;
                     sender_name := senderName;
                     msg_content := content;
                     timestamp := timestamp;
                     is_from_me := false;
                     is_bot_message := false |}) ;;
          logger Info chatJid "Discord message stored"
      end.

(** [jid.replace(/^dc:/, '')] *)
Definition channelId_of (jid : jsstring) : jsstring :=
  replace_anchored jid (lit "dc:") [].

(** [`**${ASSISTANT_NAME}:** ${text}`] *)
Definition prefixed_text (text : jsstring) : jsstring :=
  lit "**" ++ ASSISTANT_NAME ++ lit ":** " ++ text.

Definition sendMessage (this : DiscordChannel) (jid text : jsstring) : Eff unit :=
  match client this, connected this with
  | Some c, true =>
      let channelId := channelId_of jid in
      try_catch
        (channel ← channels_fetch c channelId;
         match channel with
         | Some (TextChannel name) =>
             let ch := TextChannel name in
             let prefixed := prefixed_text text in
             (if (jslength prefixed <=? MAX_MESSAGE_LENGTH)%Z
              then channel_send c ch prefixed
              else for_each (chunk_loop prefixed []) (channel_send c ch)) ;;
             logger Info jid "Discord message sent"
         | _ =>
             logger Warn jid "Discord channel not found or not a text channel"
         end)
        (fun err => logger Error jid "Failed to send Discord message")
  | _, _ => logger Warn jid "Discord not connected, cannot send message"
  end.

Definition isConnected (this : DiscordChannel) : bool := connected this.

Definition ownsJid (jid : jsstring) : bool := startsWith jid (lit "dc:").

Definition setTyping (this : DiscordChannel) (jid : jsstring) (isTyping : bool)
  : Eff unit :=
  match client this, connected this, isTyping with
  | Some c, true, true =>
      let channelId := channelId_of jid in
      try_catch
        (channel ← channels_fetch c channelId;
         match channel with
         | Some (TextChannel name) => channel_sendTyping c (TextChannel name)
         | _ => ret tt
         end)
        (fun err => logger Debug jid "Failed to send Discord typing indicator")
  | _, _, _ => ret tt
  end.

End Adapter.

(** *** Reading a trace *)

Definition is_onMessage (e : event) : bool :=
  match e with OnMessage _ _ => true | _ => false end.

Definition is_onChatMetadata (e : event) : bool :=
  match e with OnChatMetadata _ _ _ _ _ => true | _ => false end.

Definition is_transport (e : event) : bool :=
  match e with
  | ChannelsFetch _ | ChannelSend _ _ | ChannelSendTyping _ => true
  | _ => false
  end.

Definition count (p : event -> bool) (tr : trace) : nat :=
  length (List.filter p tr).

(** The contents of the messages sent, in order. *)
Definition sent (tr : trace) : list jsstring :=
  omap (fun e => match e with ChannelSend _ text => Some text | _ => None end) tr.

(** The identifiers fetched, in order. *)
Definition fetched (tr : trace) : list jsstring :=
  omap (fun e => match e with ChannelsFetch i => Some i | _ => None end) tr.

(** The channels a typing indicator was sent to, in order. *)
Definition typed (tr : trace) : list channel :=
  omap (fun e => match e with ChannelSendTyping ch => Some ch | _ => None end) tr.

(** The last call of a trace, when there is one. *)
Definition last_call (tr : trace) : option event := last tr.

(** *** Lifecycle *)

(** The field initialisers of the class: no client, not connected. *)
Definition new_DiscordChannel : DiscordChannel :=
  {| client := None; connected := false |}.

(** What the lifecycle code calls outside the adapter. *)
Inductive lifecycle_call :=
| ClientDestroy
| LoggerCall (level : log_level) (text : string)
| ConsoleLog (text : jsstring).

Definition is_destroy (call : lifecycle_call) : bool :=
  match call with ClientDestroy => true | _ => false end.

(** The user of the ready client, as the [ClientReady] handler reads it. *)
Record ClientUser := {
  ready_username : jsstring;
  ready_id : jsstring;
  tag : jsstring }.

(** [connect()] up to the point where it returns its promise: a new client
    is stored; the connected flag is not touched. *)
Definition connect_begin (this : DiscordChannel) (fresh : Client) : DiscordChannel :=
  {| client := Some fresh; connected := connected this |}.

(** The [Events.ClientReady] handler registered with [on]. *)
Definition onClientReady (this : DiscordChannel) (user : ClientUser)
  : DiscordChannel * list lifecycle_call :=
  ({| client := client this; connected := true |},
   [LoggerCall Info "Discord bot connected";
    ConsoleLog ([10%N] ++ lit "  Discord bot: " ++ tag user);
    ConsoleLog (lit "  Use /channelid in a channel to get its registration ID"
                ++ [10%N])]).

(** The [Events.Error] handler: it logs and changes nothing. *)
Definition onClientError (this : DiscordChannel)
  : DiscordChannel * list lifecycle_call :=
  (this, [LoggerCall Error "Discord client error"]).

Definition disconnect (this : DiscordChannel)
  : DiscordChannel * list lifecycle_call :=
  match client this with
  | Some _ =>
      ({| client := None; connected := false |},
       [ClientDestroy; LoggerCall Info "Discord bot disconnected"])
  | None => (this, [])
  end.

(** One lifecycle transition of an adapter that is used in the expected
    way: [connect] is called only while no client is held.  The ready and
    error handlers are registered on the client that [connect] stores and
    a destroyed client emits nothing, so they run only while the adapter
    holds a client. *)
Inductive lifecycle_step : DiscordChannel -> DiscordChannel -> Prop :=
| step_connect this fresh :
    client this = None ->
    lifecycle_step this (connect_begin this fresh)
| step_ready this user :
    is_Some (client this) ->
    lifecycle_step this (fst (onClientReady this user))
| step_error this :
    is_Some (client this) ->
    lifecycle_step this (fst (onClientError this))
| step_disconnect this :
    lifecycle_step this (fst (disconnect this)).

(** The adapter states that the lifecycle can produce from a new object. *)
Definition reachable (this : DiscordChannel) : Prop :=
  rtc lifecycle_step new_DiscordChannel this.

(** *** The [/channelid] command *)

(** The fields of an interaction the handler reads; [commandName] and
    [channelId] are those of a chat-input command. *)
Record Interaction := {
  isChatInputCommand : bool;
  commandName : jsstring;
  interaction_channelId : jsstring }.

(** The argument of [interaction.reply]. *)
Record InteractionReplyOptions := {
  reply_content : jsstring;
  ephemeral : bool }.

(** [`Channel ID: \`${jid}\`\nRegister with: \`DISCORD_CHANNEL_JID=${jid}\``] *)
Definition channelid_reply (jid : jsstring) : jsstring :=
  lit "Channel ID: `" ++ jid ++ lit "`" ++ [10%N]
  ++ lit "Register with: `DISCORD_CHANNEL_JID=" ++ jid ++ lit "`".

(** The [Events.InteractionCreate] handler, as the list of the
    [interaction.reply] calls it makes. *)
Definition onInteractionCreate (interaction : Interaction)
  : list InteractionReplyOptions :=
  if negb (isChatInputCommand interaction) then []
  else if negb (bool_decide (commandName interaction = lit "channelid")) then []
  else
    let channelId := interaction_channelId interaction in
    let jid := lit "dc:" ++ channelId in
    [{| reply_content := channelid_reply jid; ephemeral := true |}].

End Discord.

(* ===================================================================== *)
(** ** The upstream-sync script: [write_ipc_task] *)
(* ===================================================================== *)

Module SyncUpstream.
Local Open Scope string_scope.

(** One reading of the system clock, as date(1) sees it: whole seconds
    since the epoch and the nanoseconds within the second
    (000000000..999999999). *)
Record clock := {
  seconds : Z;
  nanoseconds : N }.

Definition valid_clock (t : clock) : Prop := (nanoseconds t < 10 ^ 9)%N.

Definition digit_char (d : N) : ascii := ascii_of_N (48 + d).

(** [n] in decimal, padded with zeros on the left to [width] digits. *)
Fixpoint zero_padded (width : nat) (n : N) : string :=
  match width with
  | O => ""
  | S w => zero_padded w (n / 10) ++ String (digit_char (n mod 10)) ""
  end.

(** [date +%s%N]: the seconds in decimal, then nine digits of nanoseconds. *)
Definition date_s (t : clock) : string :=
  NilZero.string_of_int (Z.to_int (seconds t)).
Definition date_N (t : clock) : string := zero_padded 9 (nanoseconds t).
Definition date_sN (t : clock) : string := date_s t ++ date_N t.

(** [task_file="$IPC_TASKS_DIR/sync_$(date +%s%N).json"] *)
Definition task_file (IPC_TASKS_DIR : string) (now : clock) : string :=
  IPC_TASKS_DIR ++ "/sync_" ++ date_sN now ++ ".json".

Definition DISCORD_JID : string := "dc:1474853349676286145".

(** The object the node one-liner serialises with [JSON.stringify]; a
    property whose value is [undefined] is left out of the JSON text, which
    is [None] here. *)
Record task_descriptor := {
  type : string;
  prompt : option string;
  schedule_type : string;
  schedule_value : string;
  targetJid : string }.

(** A regular file: its permission bits and the JSON value it holds. *)
Record file := {
  mode : N;
  data : task_descriptor }.

(** The permission bits [chmod 666] sets: rw-rw-rw-. *)
Definition mode_666 : N := 6 * 64 + 6 * 8 + 6.

(** A character that stands for itself between the single quotes of a
    JavaScript string literal: ASCII, and neither the quote, the backslash
    nor a line break. *)
Definition plain_char (c : ascii) : bool :=
  let n := N_of_ascii c in
  (n <? 128)%N && negb (n =? 39)%N && negb (n =? 92)%N
  && negb (n =? 10)%N && negb (n =? 13)%N.

Fixpoint plain_literal (s : string) : bool :=
  match s with
  | "" => true
  | String c s' => plain_char c && plain_literal s'
  end.

(** [write_ipc_task "$prompt"], as a change of the regular files, for a run
    in which [mkdir -p], [node] and [chmod] complete.

    [next_run] is the ISO timestamp the first node call prints for
    [Date.now() + 15000], [now] is the clock reading of the [date] call.
    The shell splices [next_run], [DISCORD_JID] and the file name between
    single quotes into the program text of the second node call; the
    program is the one written in the script when these three texts are
    plain, and only then is the run described ([None] otherwise: a quote in
    the directory name, say, leaves node with a program that does not
    parse).

    The word [TASK_PROMPT="$prompt"] stands after the command word [node],
    so the shell passes it to node as an argument and not as an assignment
    to its environment: [process.env.TASK_PROMPT] is the variable the
    script itself inherited, [TASK_PROMPT_env], or [undefined].

    [fs.writeFileSync] creates the file or replaces its contents and
    [chmod 666] follows; the directories [mkdir -p] makes are not regular
    files and are not represented. *)
Definition write_ipc_task (TASK_PROMPT_env : option string)
    (IPC_TASKS_DIR : string) (task_prompt next_run : string)
    (now : clock) (fs : gmap string file) : option (gmap string file) :=
  let task_file := task_file IPC_TASKS_DIR now in
  let node_arguments := ["TASK_PROMPT=" ++ task_prompt] in
  if plain_literal next_run && plain_literal DISCORD_JID
     && plain_literal task_file
  then
    let obj := {| type := "schedule_task";
                  prompt := TASK_PROMPT_env;
                  schedule_type := "once";
                  schedule_value := next_run;
                  targetJid := DISCORD_JID |} in
    Some (<[ task_file := {| mode := mode_666; data := obj |} ]> fs)
  else None.

(** *** The body of the script *)

Definition newline : ascii := ascii_of_N 10.

Fixpoint count_newlines (s : string) : nat :=
  match s with
  | "" => 0
  | String c s' =>
      (if Ascii.eqb c newline then 1 else 0) + count_newlines s'
  end.

(** [$(...)]: the output of the command without its trailing newlines. *)
Fixpoint command_substitution (out : string) : string :=
  match out with
  | "" => ""
  | String c out' =>
      let rest := command_substitution out' in
      if Ascii.eqb c newline && String.eqb rest "" then "" else String c rest
  end.

(** [head -n]: the output up to and including its [n]-th newline. *)
Fixpoint head_lines (out : string) (n : nat) : string :=
  match out, n with
  | _, O => ""
  | "", _ => ""
  | String c out', S n' =>
      String c (head_lines out' (if Ascii.eqb c newline then n' else n))
  end.

(** [$(echo "$s" | grep -c '' || true)]: [echo] ends [s] with a newline and
    [grep -c ''] counts the lines it reads. *)
Definition line_count (s : string) : nat := S (count_newlines s).

(** A shell integer in decimal. *)
Definition decimal (n : nat) : string := NilZero.string_of_uint (Nat.to_uint n).

(** The summary the script builds from the output of
    [git log HEAD~N..HEAD --oneline --no-merges]: the first 25 lines, and a
    last line [...and EXTRA more] when 25 lines are shown and more than 25
    commits were counted. *)
Definition commit_summary (COMMIT_COUNT : nat) (git_log_out : string) : string :=
  let COMMIT_SUMMARY := command_substitution (head_lines git_log_out 25) in
  let SHOWN := line_count COMMIT_SUMMARY in
  if (25 <=? SHOWN)%nat && (25 <? COMMIT_COUNT)%nat then
    let EXTRA := COMMIT_COUNT - 25 in
    COMMIT_SUMMARY ++ String newline ("...and " ++ decimal EXTRA ++ " more")
  else COMMIT_SUMMARY.

Definition up_to_date_prompt : string :=
  "The daily upstream sync ran and found no new changes — the fork is already up to date with the upstream qwibitai/nanoclaw repo. Send a brief Discord message letting me know.".

Definition synced_prompt (COMMIT_COUNT : nat) (COMMIT_SUMMARY : string) : string :=
  "The daily upstream sync just completed. " ++ decimal COMMIT_COUNT
  ++ " new commit(s) were merged from upstream (qwibitai/nanoclaw) into our fork and pushed to origin. Commits:"
  ++ String newline (String newline
       (COMMIT_SUMMARY
        ++ String newline (String newline
             "Send a concise Discord message with the key changes. One line per notable change, skip trivial ones."))).

(** What the git commands of one run do: exit statuses and outputs. *)
Record git_outcomes := {
  fetch_status : N;        (* git fetch upstream *)
  new_commits_out : string;(* stdout of git log HEAD..upstream/main --oneline *)
  merge_status : N;        (* git merge upstream/main *)
  push_status : N;         (* git push origin main *)
  summary_status : N;      (* git log ... --no-merges | head -25, under pipefail *)
  summary_out : string }.  (* stdout of that git log *)

Inductive git_command :=
| GitFetch
| GitLogNew
| GitMerge
| GitPush
| GitLogSummary.

(** The result of one run: its exit status, the git commands it ran, and
    the regular files its own commands wrote (what git does to the working
    tree is not represented). *)
Record run_result := {
  exit_status : N;
  commands : list git_command;
  written : gmap string file }.

(** The script from [cd "$PROJECT_DIR"] on, under [set -euo pipefail]: a
    failing git command ends the run with its status, except the first
    [git log], whose status [|| true] hides.  The [log] lines on standard
    output are not recorded.  A run that reaches [write_ipc_task] is
    described when that call is ([None] otherwise). *)
Definition sync_upstream (TASK_PROMPT_env : option string)
    (IPC_TASKS_DIR : string) (git : git_outcomes)
    (next_run : string) (now : clock) : option run_result :=
  if negb (fetch_status git =? 0)%N then
    Some {| exit_status := fetch_status git; commands := [GitFetch];
            written := ∅ |}
  else
    let NEW_COMMITS := command_substitution (new_commits_out git) in
    if String.eqb NEW_COMMITS "" then
      task ← write_ipc_task TASK_PROMPT_env IPC_TASKS_DIR up_to_date_prompt
                next_run now ∅;
      Some {| exit_status := 0;
              commands := [GitFetch; GitLogNew];
              written := task |}
    else
      let COMMIT_COUNT := line_count NEW_COMMITS in
      if negb (merge_status git =? 0)%N then
        Some {| exit_status := merge_status git;
                commands := [GitFetch; GitLogNew; GitMerge]; written := ∅ |}
      else if negb (push_status git =? 0)%N then
        Some {| exit_status := push_status git;
                commands := [GitFetch; GitLogNew; GitMerge; GitPush];
                written := ∅ |}
      else if negb (summary_status git =? 0)%N then
        Some {| exit_status := summary_status git;
                commands := [GitFetch; GitLogNew; GitMerge; GitPush;
                             GitLogSummary];
                written := ∅ |}
      else
        let COMMIT_SUMMARY := commit_summary COMMIT_COUNT (summary_out git) in
        task ← write_ipc_task TASK_PROMPT_env IPC_TASKS_DIR
                  (synced_prompt COMMIT_COUNT COMMIT_SUMMARY) next_run now ∅;
        Some {| exit_status := 0;
                commands := [GitFetch; GitLogNew; GitMerge; GitPush;
                             GitLogSummary];
                written := task |}.

End SyncUpstream.

(* ===================================================================== *)
(** ** The specification's vocabulary *)
(* ===================================================================== *)

Module Spec.
Import JS Discord.

(** ceil(n / m) on natural numbers. *)
Definition ceil_div (n m : nat) : nat := (n + m - 1) / m.

(** "Consecutive fixed-size slices of exactly that maximum length (the
    final slice may be shorter)": slice [i] starts at offset [i * m]. *)
Definition consecutive_slices {A} (m : nat) (s : list A) : list (list A) :=
  map (fun i => take m (drop (i * m) s)) (seq 0 (ceil_div (length s) m)).

(** "First non-empty value wins" over an ordered preference list whose
    entries may be absent. *)
Fixpoint first_non_empty (prefs : list (option jsstring)) : option jsstring :=
  match prefs with
  | [] => None
  | Some (c :: s) :: _ => Some (c :: s)
  | _ :: rest => first_non_empty rest
  end.

(** An inbound event that passes the three filters of the handler. *)
Definition passes_filters (message : Message) : Prop :=
  bot (author message) = false /\
  truthy_opt (guildId message) = true /\
  truthy (channelId message) = true /\
  truthy (content message) = true.

End Spec.

(* ===================================================================== *)
(** ** Sample inputs *)
(* ===================================================================== *)

Module Samples.
Import JS Discord SyncUpstream.

(** A platform client on which every call succeeds and every identifier
    resolves to the text channel [general]. *)
Definition obliging_client : Client :=
  {| fetch_reply := fun _ _ => Normal (Some (TextChannel (lit "general")));
     send_reply := fun _ _ _ => Normal tt;
     sendTyping_reply := fun _ _ => Normal tt |}.

(** A platform client on which every call fails. *)
Definition failing_client : Client :=
  {| fetch_reply := fun _ _ => Throw (JsError "Missing Access");
     send_reply := fun _ _ _ => Throw (JsError "Missing Permissions");
     sendTyping_reply := fun _ _ => Throw (JsError "Missing Permissions") |}.

Definition live (c : Client) : DiscordChannel :=
  {| client := Some c; connected := true |}.

Definition alice : User :=
  {| user_id := lit "1001"; bot := false;
     globalName := Some (lit "Al"); username := lit "alice123" |}.

Definition hello : Message :=
  {| id := lit "9001"; author := alice;
     member := Some {| displayName := [] |};
     guildId := Some (lit "7"); channelId := lit "42";
     content := lit "hello";
     createdAt := {| toISOString := lit "2026-01-01T00:00:00.000Z" |};
     message_channel := TextChannel (lit "general") |}.

(** The same event from a bot account. *)
Definition bot_hello : Message :=
  {| id := id hello;
     author := {| user_id := lit "1002"; bot := true;
                  globalName := None; username := lit "relay" |};
     member := None; guildId := guildId hello; channelId := channelId hello;
     content := content hello; createdAt := createdAt hello;
     message_channel := message_channel hello |}.

(** A platform client that resolves every identifier to a text channel
    and accepts one message, then rejects the next sends. *)
Definition flaky_client : Client :=
  {| fetch_reply := fun _ _ => Normal (Some (TextChannel (lit "general")));
     send_reply := fun tr _ _ =>
       if (length tr <=? 1)%nat then Normal tt
       else Throw (JsError "rate limited");
     sendTyping_reply := fun _ _ => Throw (JsError "rate limited") |}.

(** A platform client on which every identifier resolves to a channel that
    is not a text channel. *)
Definition voice_client : Client :=
  {| fetch_reply := fun _ _ => Normal (Some OtherChannel);
     send_reply := fun _ _ _ => Normal tt;
     sendTyping_reply := fun _ _ => Normal tt |}.

(** The event [hello] without a guild: a direct message. *)
Definition dm_hello : Message :=
  {| id := id hello; author := author hello; member := None;
     guildId := None; channelId := channelId hello;
     content := content hello; createdAt := createdAt hello;
     message_channel := OtherChannel |}.

(** An adapter after [connect()] and the ready event. *)
Definition ready_adapter : DiscordChannel :=
  fst (onClientReady (connect_begin new_DiscordChannel obliging_client)
         {| ready_username := lit "nano"; ready_id := lit "1";
            tag := lit "nano#0001" |}).

(** [/channelid] typed in channel 42. *)
Definition channelid_command : Interaction :=
  {| isChatInputCommand := true; commandName := lit "channelid";
     interaction_channelId := lit "42" |}.

(** A run of the script in which the push is refused. *)
Definition push_refused : git_outcomes :=
  {| fetch_status := 0;
     new_commits_out := "abc1234 fix typo";
     merge_status := 0;
     push_status := 1;
     summary_status := 0;
     summary_out := "abc1234 fix typo" |}.

(** A run of the script that merges and pushes one commit. *)
Definition merged_one : git_outcomes :=
  {| fetch_status := 0;
     new_commits_out := "abc1234 fix typo";
     merge_status := 0;
     push_status := 0;
     summary_status := 0;
     summary_out := "abc1234 fix typo" |}.

(** A run of the script in which upstream has nothing new. *)
Definition nothing_new : git_outcomes :=
  {| fetch_status := 0;
     new_commits_out := "";
     merge_status := 0;
     push_status := 0;
     summary_status := 0;
     summary_out := "" |}.

(** Two clock readings one nanosecond apart. *)
Definition noon : clock := {| seconds := 1767268800; nanoseconds := 123456789 |}.
Definition noon_later : clock := {| seconds := 1767268800; nanoseconds := 123456790 |}.

End Samples.

(* ===================================================================== *)
(** ** Facts about the string primitives *)
(* ===================================================================== *)

Module JSFacts.
Import JS.

Lemma slice_head (s : jsstring) (n : Z) :
  (0 <= n)%Z -> slice s 0 (Some n) = take (Z.to_nat n) s.
Proof.
  intros Hn. unfold slice, clamp_index, jslength.
  change (0 <? 0)%Z with false. cbv iota.
  destruct (Z.ltb_spec n 0) as [?|_]; [lia|].
  rewrite (Z.min_l 0) by lia. change (Z.to_nat 0) with 0%nat. rewrite drop_0.
  rewrite Z.sub_0_r, Z.max_l by lia.
  destruct (Z.min_spec n (Z.of_nat (length s))) as [[? ->]|[? ->]].
  - reflexivity.
  - rewrite Nat2Z.id. rewrite take_ge by lia. by rewrite take_ge by lia.
Qed.

Lemma slice_tail (s : jsstring) (n : Z) :
  (0 <= n)%Z -> slice s n None = drop (Z.to_nat n) s.
Proof.
  intros Hn. unfold slice, clamp_index, jslength.
  destruct (Z.ltb_spec n 0) as [?|_]; [lia|].
  destruct (Z.min_spec n (Z.of_nat (length s))) as [[? ->]|[? ->]].
  - apply take_ge. rewrite length_drop. lia.
  - rewrite Nat2Z.id, Z.sub_diag. simpl.
    rewrite !drop_ge by lia. reflexivity.
Qed.

Lemma startsWith_spec (s search : jsstring) :
  startsWith s search = true <-> exists rest, s = search ++ rest.
Proof.
  revert s. induction search as [|c search IH]; intros s; simpl.
  - split; [intros _; by exists s | intros _; by destruct s].
  - destruct s as [|d s].
    + split; [done | intros [rest Hrest]; discriminate Hrest].
    + simpl. rewrite andb_true_iff, N.eqb_eq, IH. split.
      * intros [-> [rest ->]]. by exists rest.
      * intros [rest Hrest]. injection Hrest as -> ->. split; [done | by exists rest].
Qed.

Lemma replace_anchored_match (pat repl rest : jsstring) :
  replace_anchored (pat ++ rest) pat repl = repl ++ rest.
Proof.
  unfold replace_anchored.
  replace (startsWith (pat ++ rest) pat) with true
    by (symmetry; apply startsWith_spec; by exists rest).
  by rewrite drop_app_length.
Qed.

Lemma replace_anchored_no_match (s pat repl : jsstring) :
  startsWith s pat = false -> replace_anchored s pat repl = s.
Proof. intros H. unfold replace_anchored. by rewrite H. Qed.

End JSFacts.

Module DiscordFacts.
Import JS JSFacts Discord.

Import Spec.

Section Slices.
Context {A : Type}.
Variable m : nat.
Hypothesis m_pos : 0 < m.

Lemma ceil_div_0 : ceil_div 0 m = 0.
Proof. unfold ceil_div. apply Nat.div_small. lia. Qed.

Lemma ceil_div_pos (n : nat) : 0 < n -> ceil_div n m = S ((n - 1) / m).
Proof.
  intros Hn. unfold ceil_div.
  replace (n + m - 1) with ((n - 1) + 1 * m) by lia.
  rewrite Nat.div_add by lia. lia.
Qed.

Lemma ceil_div_step (n : nat) : 0 < n -> ceil_div n m = S (ceil_div (n - m) m).
Proof.
  intros Hn. rewrite ceil_div_pos by done. f_equal.
  destruct (Nat.le_gt_cases n m) as [Hle|Hgt].
  - replace (n - m) with 0 by lia. rewrite ceil_div_0.
    apply Nat.div_small. lia.
  - rewrite (ceil_div_pos (n - m)) by lia.
    replace (n - 1) with ((n - m - 1) + 1 * m) by lia.
    rewrite Nat.div_add by lia. lia.
Qed.

Lemma consecutive_slices_nil : consecutive_slices m (@nil A) = [].
Proof. unfold consecutive_slices. simpl length. by rewrite ceil_div_0. Qed.

Lemma consecutive_slices_cons (s : list A) :
  0 < length s ->
  consecutive_slices m s = take m s :: consecutive_slices m (drop m s).
Proof.
  intros Hs. unfold consecutive_slices.
  rewrite (ceil_div_step (length s)) by done.
  rewrite length_drop. cbn [seq map]. rewrite drop_0. f_equal.
  rewrite <- seq_shift, map_map. apply map_ext. intros i.
  rewrite drop_drop. repeat f_equal; lia.
Qed.

Lemma length_consecutive_slices (s : list A) :
  length (consecutive_slices m s) = ceil_div (length s) m.
Proof. unfold consecutive_slices. by rewrite length_map, length_seq. Qed.

Lemma consecutive_slices_bounded (s : list A) :
  Forall (fun chunk => length chunk <= m) (consecutive_slices m s).
Proof.
  unfold consecutive_slices. apply Forall_map, Forall_forall. intros i _.
  simpl. rewrite length_take. lia.
Qed.

Lemma concat_consecutive_slices (s : list A) :
  concat (consecutive_slices m s) = s.
Proof.
  remember (length s) as n eqn:Hn. revert s Hn.
  induction n as [n IH] using lt_wf_ind. intros s Hn.
  destruct s as [|a s].
  - by rewrite consecutive_slices_nil.
  - rewrite consecutive_slices_cons by (simpl; lia).
    cbn [concat]. rewrite (IH (length (drop m (a :: s)))); try done.
    + apply take_drop.
    + rewrite length_drop. simpl in *. lia.
Qed.

Lemma consecutive_slices_short (s : list A) :
  0 < length s <= m -> consecutive_slices m s = [s].
Proof.
  intros [Hpos Hle]. rewrite consecutive_slices_cons by done.
  rewrite take_ge, drop_ge by lia. by rewrite consecutive_slices_nil.
Qed.

End Slices.

(** The loop computes the consecutive slices, after what it was given. *)
Lemma chunk_loop_slices (remaining : jsstring) (chunks : list jsstring) :
  chunk_loop remaining chunks
  = chunks ++ consecutive_slices 2000 remaining.
Proof.
  funelim (chunk_loop remaining chunks).
  - match goal with IH : chunk_loop _ _ = _ ++ _ |- _ => rewrite IH end.
    rewrite slice_head, slice_tail by done.
    change (Z.to_nat MAX_MESSAGE_LENGTH) with 2000.
    rewrite <- app_assoc. f_equal. cbn [app]. symmetry.
    apply consecutive_slices_cons; [lia|].
    match goal with H : (0 <? _)%Z = true |- _ =>
      pose proof (proj1 (Z.ltb_lt _ _) H) end.
    unfold jslength in *. lia.
  - match goal with H : (0 <? _)%Z = false |- _ =>
      pose proof (proj1 (Z.ltb_ge _ _) H) as Hlen end.
    unfold jslength in Hlen.
    destruct remaining; [|simpl in Hlen; lia].
    by rewrite consecutive_slices_nil, app_nil_r by lia.
Qed.

(** *** The effect monad on the adapter's calls *)

Lemma bind_unfold {A B} (m : Eff A) (k : A -> Eff B) (tr : trace) :
  (m ≫= k) tr
  = match m tr with
    | (Normal a, tr') => k a tr'
    | (Throw err, tr') => (Throw err, tr')
    end.
Proof. reflexivity. Qed.

Lemma sent_app (tr1 tr2 : trace) : sent (tr1 ++ tr2) = sent tr1 ++ sent tr2.
Proof. apply omap_app. Qed.

Lemma sent_sends (ch : channel) (l : list jsstring) :
  sent (map (ChannelSend ch) l) = l.
Proof. induction l as [|x l IH]; [done|]. cbn. unfold sent in IH. by rewrite IH. Qed.

Lemma fetched_app (tr1 tr2 : trace) :
  fetched (tr1 ++ tr2) = fetched tr1 ++ fetched tr2.
Proof. apply omap_app. Qed.

Lemma fetched_sends (ch : channel) (l : list jsstring) :
  fetched (map (ChannelSend ch) l) = [].
Proof. induction l as [|x l IH]; [done|]. cbn. by unfold fetched in IH. Qed.

Lemma count_app (p : event -> bool) (tr1 tr2 : trace) :
  count p (tr1 ++ tr2) = count p tr1 + count p tr2.
Proof. unfold count. by rewrite List.filter_app, length_app. Qed.

(** When the platform accepts every message, the loop over the chunks
    sends all of them, in order. *)
Lemma for_each_send_all (c : Client) (ch : channel) (l : list jsstring) (tr : trace) :
  (forall tr' ch' text, send_reply c tr' ch' text = Normal tt) ->
  for_each l (channel_send c ch) tr = (Normal tt, tr ++ map (ChannelSend ch) l).
Proof.
  intros Hok. revert tr. induction l as [|x l IH]; intros tr.
  - simpl. unfold ret. by rewrite app_nil_r.
  - cbn [for_each]. rewrite bind_unfold. unfold channel_send at 1.
    rewrite Hok, IH. cbn [map]. by rewrite <- app_assoc.
Qed.

(** Whatever the platform does, the loop sends an initial part of the
    chunks and makes no other call. *)
Lemma for_each_send_prefix (c : Client) (ch : channel) (l : list jsstring) (tr : trace) :
  exists k, snd (for_each l (channel_send c ch) tr)
            = tr ++ map (ChannelSend ch) (take k l).
Proof.
  revert tr. induction l as [|x l IH]; intros tr.
  - exists 0. simpl. by rewrite app_nil_r.
  - cbn [for_each]. rewrite bind_unfold. unfold channel_send at 1.
    destruct (send_reply c tr ch x) as [[]|err].
    + destruct (IH (tr ++ [ChannelSend ch x])) as [k Hk].
      exists (S k). rewrite Hk. cbn [take map]. by rewrite <- app_assoc.
    + exists 1. cbn. by destruct l.
Qed.

(** The prefixed text is never empty. *)
Lemma prefixed_text_nonempty (name text : jsstring) :
  0 < length (prefixed_text name text).
Proof. unfold prefixed_text. simpl. lia. Qed.

(** The complete run of [sendMessage] on a connected adapter whose
    destination resolves to a text channel and whose sends all succeed. *)
Lemma sendMessage_delivered (ASSISTANT_NAME : jsstring) (this : DiscordChannel)
    (c : Client) (jid text name : jsstring) :
  client this = Some c -> connected this = true ->
  fetch_reply c [] (channelId_of jid) = Normal (Some (TextChannel name)) ->
  (forall tr ch content, send_reply c tr ch content = Normal tt) ->
  sendMessage ASSISTANT_NAME this jid text []
  = (Normal tt,
     [ChannelsFetch (channelId_of jid)]
     ++ map (ChannelSend (TextChannel name))
            (consecutive_slices 2000 (prefixed_text ASSISTANT_NAME text))
     ++ [Log Info jid "Discord message sent"]).
Proof.
  intros Hclient Hconn Hfetch Hsend. unfold sendMessage.
  rewrite Hclient, Hconn. unfold try_catch.
  rewrite bind_unfold. unfold channels_fetch at 1. rewrite Hfetch.
  rewrite bind_unfold.
  pose proof (prefixed_text_nonempty ASSISTANT_NAME text) as Hpos.
  destruct (Z.leb_spec (jslength (prefixed_text ASSISTANT_NAME text))
              MAX_MESSAGE_LENGTH) as [Hle|Hgt].
  - unfold channel_send at 1. rewrite Hsend.
    rewrite consecutive_slices_short; [reflexivity | lia |].
    unfold jslength, MAX_MESSAGE_LENGTH in Hle. lia.
  - rewrite chunk_loop_slices, for_each_send_all by done.
    unfold logger, emit. reflexivity.
Qed.

(** Whatever the platform does, a connected [sendMessage] fetches the
    destination once, then sends some messages to one channel, then logs
    once; the catch clause turns every failure into the last case. *)
Lemma sendMessage_calls (ASSISTANT_NAME : jsstring) (this : DiscordChannel)
    (c : Client) (jid text : jsstring) :
  client this = Some c -> connected this = true ->
  exists ch msgs level line,
    calls_of (sendMessage ASSISTANT_NAME this jid text)
    = [ChannelsFetch (channelId_of jid)]
      ++ map (ChannelSend ch) msgs ++ [Log level jid line].
Proof.
  intros Hclient Hconn. unfold calls_of, sendMessage.
  rewrite Hclient, Hconn. unfold try_catch.
  rewrite bind_unfold. unfold channels_fetch at 1.
  destruct (fetch_reply c [] (channelId_of jid)) as [[[name|]|]|err].
  - rewrite bind_unfold.
    destruct (jslength (prefixed_text ASSISTANT_NAME text) <=? MAX_MESSAGE_LENGTH)%Z.
    + unfold channel_send at 1.
      exists (TextChannel name), [prefixed_text ASSISTANT_NAME text].
      destruct (send_reply c _ _ _) as [[]|err]; by eexists _, _.
    + destruct (for_each_send_prefix c (TextChannel name)
                  (chunk_loop (prefixed_text ASSISTANT_NAME text) [])
                  ([] ++ [ChannelsFetch (channelId_of jid)])) as [k Hk].
      exists (TextChannel name),
             (take k (chunk_loop (prefixed_text ASSISTANT_NAME text) [])).
      destruct (for_each _ _ _) as [[[]|err] tr'];
        cbn [snd] in Hk; subst tr'; by eexists _, _.
  - exists OtherChannel, [], Warn. by eexists.
  - exists OtherChannel, [], Warn. by eexists.
  - exists OtherChannel, [], Error. by eexists.
Qed.

(** A [try] whose [catch] clause only logs completes normally. *)
Lemma try_catch_logger (body : Eff unit) (level : log_level) (jid : jsstring)
    (line : string) (tr : trace) :
  fst (try_catch body (fun _ => logger level jid line) tr) = Normal tt.
Proof. unfold try_catch. by destruct (body tr) as [[[]|err] tr']. Qed.

End DiscordFacts.

(* ===================================================================== *)
(** ** Properties of the adapter *)
(* ===================================================================== *)

Module DiscordProps.
Import JS JSFacts Spec Samples Discord DiscordFacts.

(** C1. On a connected adapter whose destination resolves to a text channel
    and whose sends succeed, [sendMessage] sends the prefixed text: as one
    message when its length is at most [MAX_MESSAGE_LENGTH], and in every
    case as the ceil(length / MAX_MESSAGE_LENGTH) consecutive slices of the
    prefixed text, in order, each at most [MAX_MESSAGE_LENGTH] long, whose
    concatenation is the prefixed text (the prefix occurs once). *)
Theorem sendMessage_chunking (ASSISTANT_NAME : jsstring) (this : DiscordChannel)
    (c : Client) (jid text name : jsstring) :
  client this = Some c -> connected this = true ->
  fetch_reply c [] (channelId_of jid) = Normal (Some (TextChannel name)) ->
  (forall tr ch content, send_reply c tr ch content = Normal tt) ->
  let M := Z.to_nat MAX_MESSAGE_LENGTH in
  let prefixed := lit "**" ++ ASSISTANT_NAME ++ lit ":** " ++ text in
  let out := sent (calls_of (sendMessage ASSISTANT_NAME this jid text)) in
  (length prefixed <= M -> out = [prefixed]) /\
  out = consecutive_slices M prefixed /\
  length out = ceil_div (length prefixed) M /\
  Forall (fun chunk => length chunk <= M) out /\
  concat out = prefixed.
Proof.
  intros Hclient Hconn Hfetch Hsend M prefixed out.
  assert (Hout : out = consecutive_slices M prefixed).
  { unfold out, calls_of.
    rewrite (sendMessage_delivered _ _ c _ _ name) by done.
    cbn [snd]. rewrite !sent_app, sent_sends. cbn. by rewrite app_nil_r. }
  assert (HM : 0 < M) by (unfold M, MAX_MESSAGE_LENGTH; lia).
  rewrite Hout. repeat split.
  - intros Hle. apply consecutive_slices_short; [done|].
    split; [|done]. apply (prefixed_text_nonempty ASSISTANT_NAME text).
  - by apply length_consecutive_slices.
  - by apply consecutive_slices_bounded.
  - by apply concat_consecutive_slices.
Qed.

Lemma sendMessage_chunking_witness :
  let text := repeat 97%N 4500 in
  let out := sent (calls_of (sendMessage (lit "Andy") (live obliging_client)
                               (lit "dc:42") text)) in
  length out = 3 /\ concat out = lit "**Andy:** " ++ text.
Proof.
  pose proof (sendMessage_chunking (lit "Andy") (live obliging_client)
                obliging_client (lit "dc:42") (repeat 97%N 4500) (lit "general")
                eq_refl eq_refl eq_refl (fun _ _ _ => eq_refl)) as H.
  cbv zeta in H. destruct H as (_ & _ & Hlen & _ & Hcat).
  split; [exact Hlen | exact Hcat].
Defined.

(** C2. An event that passes the bot, guild-context and content filters
    produces exactly one [onChatMetadata] call; it produces no [onMessage]
    call when its chat identifier is not a key of [registeredGroups()], and
    exactly one when it is. *)
Theorem registration_gate (RegisteredGroup : Type)
    (groups : gmap jsstring RegisteredGroup) (message : Message) :
  passes_filters message ->
  let calls := calls_of (onMessageCreate RegisteredGroup groups message) in
  (groups !! chatJid_of message = None ->
     count is_onChatMetadata calls = 1 /\ count is_onMessage calls = 0) /\
  (is_Some (groups !! chatJid_of message) ->
     count is_onChatMetadata calls = 1 /\ count is_onMessage calls = 1).
Proof.
  intros (Hbot & Hguild & Hchan & Hcontent) calls. subst calls.
  unfold calls_of, onMessageCreate.
  rewrite Hbot, Hguild, Hchan, Hcontent. cbn [negb orb].
  split.
  - intros ->. by cbn.
  - intros [group ->]. by cbn.
Qed.

Lemma registration_gate_witness :
  let unregistered := calls_of (onMessageCreate unit ∅ hello) in
  let registered :=
    calls_of (onMessageCreate unit {[ lit "dc:42" := tt ]} hello) in
  (count is_onChatMetadata unregistered = 1 /\ count is_onMessage unregistered = 0)
  /\ (count is_onChatMetadata registered = 1 /\ count is_onMessage registered = 1).
Proof.
  assert (Hpass : passes_filters hello) by (repeat split).
  split.
  - apply (registration_gate unit ∅ hello Hpass). reflexivity.
  - apply (registration_gate unit {[ lit "dc:42" := tt ]} hello Hpass).
    exists tt. reflexivity.
Defined.

(** C3. An event whose author carries the bot flag makes the handler return
    at once: no call at all, so no [onMessage] and no [onChatMetadata]. *)
Theorem bot_authors_ignored (RegisteredGroup : Type)
    (groups : gmap jsstring RegisteredGroup) (message : Message) :
  bot (author message) = true ->
  onMessageCreate RegisteredGroup groups message [] = (Normal tt, []) /\
  count is_onMessage (calls_of (onMessageCreate RegisteredGroup groups message)) = 0 /\
  count is_onChatMetadata (calls_of (onMessageCreate RegisteredGroup groups message)) = 0.
Proof.
  intros Hbot. unfold calls_of, onMessageCreate. rewrite Hbot. by cbn.
Qed.

Lemma bot_authors_ignored_witness :
  calls_of (onMessageCreate unit {[ lit "dc:42" := tt ]} bot_hello) = [].
Proof.
  pose proof (bot_authors_ignored unit {[ lit "dc:42" := tt ]} bot_hello eq_refl)
    as [Hrun _].
  unfold calls_of. by rewrite Hrun.
Defined.

(** C4. [sendMessage] completes normally whatever the adapter state, the
    identifier, the text, the history and the behaviour of the platform:
    a failed fetch or send is caught and logged.  When the adapter has no
    client or is not connected it only logs a warning and makes no
    transport call. *)
Theorem sendMessage_never_throws (ASSISTANT_NAME : jsstring)
    (this : DiscordChannel) (jid text : jsstring) (history : trace) :
  fst (sendMessage ASSISTANT_NAME this jid text history) = Normal tt /\
  (client this = None \/ connected this = false ->
     calls_of (sendMessage ASSISTANT_NAME this jid text)
     = [Log Warn jid "Discord not connected, cannot send message"] /\
     count is_transport (calls_of (sendMessage ASSISTANT_NAME this jid text)) = 0).
Proof.
  split.
  - unfold sendMessage.
    destruct (client this) as [c|], (connected this);
      try reflexivity; apply try_catch_logger.
  - unfold calls_of, sendMessage.
    intros [-> | ->]; [|destruct (client this)]; by cbn.
Qed.

Lemma sendMessage_never_throws_witness :
  result_of (sendMessage (lit "Andy") (live failing_client) (lit "dc:42") (lit "hi"))
  = Normal tt /\
  count is_transport
    (calls_of (sendMessage (lit "Andy") {| client := Some obliging_client;
                                           connected := false |}
                 (lit "dc:42") (lit "hi"))) = 0.
Proof.
  split.
  - exact (proj1 (sendMessage_never_throws (lit "Andy") (live failing_client)
                    (lit "dc:42") (lit "hi") [])).
  - exact (proj2 (proj2 (sendMessage_never_throws (lit "Andy")
                           {| client := Some obliging_client; connected := false |}
                           (lit "dc:42") (lit "hi") [])
                          (or_intror eq_refl))).
Defined.

(** C5. [ownsJid] answers true exactly for the identifiers that start with
    the three code units of [dc:]; so it answers false for the empty
    string and for every string that starts otherwise. *)
Theorem ownsJid_iff_prefix (jid : jsstring) :
  (ownsJid jid = true <-> exists rest, jid = lit "dc:" ++ rest) /\
  (ownsJid jid = false <-> forall rest, jid <> lit "dc:" ++ rest) /\
  ownsJid [] = false.
Proof.
  assert (Hiff : ownsJid jid = true <-> exists rest, jid = lit "dc:" ++ rest)
    by apply startsWith_spec.
  split; [exact Hiff|]. split; [|reflexivity].
  rewrite <- not_true_iff_false, Hiff. split.
  - intros Hno rest Heq. apply Hno. by exists rest.
  - intros Hno [rest Heq]. by apply (Hno rest).
Qed.

(** C6. The sender name is the first non-empty entry of the preference
    list: the member's display name, the author's global name, the
    author's username (the empty string when none is non-empty, the
    username then being empty).  With display name [""], global name
    ["Al"] and username ["alice123"] it is ["Al"]. *)
Theorem senderName_first_non_empty (message : Message) :
  senderName message
  = default [] (first_non_empty [displayName <$> member message;
                                 globalName (author message);
                                 Some (username (author message))])
  /\ (forall i uid b g ch txt date kind,
        senderName {| id := i;
                      author := {| user_id := uid; bot := b;
                                   globalName := Some (lit "Al");
                                   username := lit "alice123" |};
                      member := Some {| displayName := lit "" |};
                      guildId := g; channelId := ch; content := txt;
                      createdAt := date; message_channel := kind |}
        = lit "Al").
Proof.
  split; [|reflexivity].
  unfold senderName, or_string, or_else, truthy_opt.
  destruct (member message) as [[[|c s]]|];
    destruct (globalName (author message)) as [[|c' s']|];
    destruct (username (author message)) as [|c'' s'']; reflexivity.
Qed.

(** C9. Every [onChatMetadata] call of the handler passes [false] as its
    fifth argument (the direct-conversation flag of the metadata
    contract); an event that reaches that step makes the call first, with
    the platform tag [discord]. *)
Theorem onChatMetadata_never_direct (RegisteredGroup : Type)
    (groups : gmap jsstring RegisteredGroup) (message : Message) :
  Forall (fun e => match e with
                   | OnChatMetadata _ _ _ _ isDirect => isDirect = false
                   | _ => True
                   end)
         (calls_of (onMessageCreate RegisteredGroup groups message))
  /\ (passes_filters message ->
      exists name rest,
        calls_of (onMessageCreate RegisteredGroup groups message)
        = OnChatMetadata (chatJid_of message) (toISOString (createdAt message))
                         name (lit "discord") false :: rest).
Proof.
  unfold passes_filters, calls_of, onMessageCreate. split.
  - destruct (bot (author message)); [by constructor|].
    destruct (_ || _); [by constructor|].
    destruct (negb _); [by constructor|].
    destruct (groups !! _); cbn; repeat constructor.
  - intros (-> & -> & -> & ->). cbn [negb orb].
    destruct (groups !! _); cbn; by eexists _, _.
Qed.

Lemma onChatMetadata_never_direct_witness :
  exists name rest,
    calls_of (onMessageCreate unit ∅ hello)
    = OnChatMetadata (lit "dc:42") (lit "2026-01-01T00:00:00.000Z")
                     name (lit "discord") false :: rest.
Proof.
  apply (proj2 (onChatMetadata_never_direct unit ∅ hello)).
  repeat split.
Defined.

(** C10. [sendMessage] and [setTyping] take as channel id the identifier
    with one leading [dc:] removed, or the identifier itself when it has
    no such prefix, and fetch that id without asking [ownsJid]. *)
Theorem destination_not_ownership_checked (ASSISTANT_NAME : jsstring)
    (this : DiscordChannel) (c : Client) (jid text : jsstring) :
  client this = Some c -> connected this = true ->
  (forall rest, channelId_of (lit "dc:" ++ rest) = rest) /\
  fetched (calls_of (sendMessage ASSISTANT_NAME this jid text))
    = [channelId_of jid] /\
  fetched (calls_of (setTyping this jid true)) = [channelId_of jid] /\
  (ownsJid jid = false ->
     channelId_of jid = jid /\
     fetched (calls_of (sendMessage ASSISTANT_NAME this jid text)) = [jid] /\
     fetched (calls_of (setTyping this jid true)) = [jid]).
Proof.
  intros Hclient Hconn.
  assert (Hsend : fetched (calls_of (sendMessage ASSISTANT_NAME this jid text))
                  = [channelId_of jid]).
  { destruct (sendMessage_calls ASSISTANT_NAME this c jid text Hclient Hconn)
      as (ch & msgs & level & line & ->).
    by rewrite !fetched_app, fetched_sends. }
  assert (Htyping : fetched (calls_of (setTyping this jid true))
                    = [channelId_of jid]).
  { unfold calls_of, setTyping. rewrite Hclient, Hconn. unfold try_catch.
    rewrite bind_unfold. unfold channels_fetch at 1.
    destruct (fetch_reply c [] (channelId_of jid)) as [[[name|]|]|err];
      try reflexivity.
    unfold channel_sendTyping. by destruct (sendTyping_reply c _ _). }
  split; [|split; [exact Hsend|split; [exact Htyping|]]].
  - intros rest. apply (replace_anchored_match (lit "dc:") [] rest).
  - intros Hforeign.
    assert (Hsame : channelId_of jid = jid)
      by (by apply replace_anchored_no_match).
    rewrite Hsame in Hsend, Htyping. done.
Qed.

Lemma destination_not_ownership_checked_witness :
  channelId_of (lit "dc:dc:42") = lit "dc:42" /\
  fetched (calls_of (sendMessage (lit "Andy") (live obliging_client)
                       (lit "tg:42") (lit "hi"))) = [lit "tg:42"] /\
  fetched (calls_of (setTyping (live obliging_client) (lit "tg:42") true))
    = [lit "tg:42"].
Proof.
  pose proof (destination_not_ownership_checked (lit "Andy")
                (live obliging_client) obliging_client (lit "tg:42") (lit "hi")
                eq_refl eq_refl) as (Hstrip & _ & _ & Hforeign).
  split; [exact (Hstrip (lit "dc:42"))|].
  exact (proj2 (Hforeign eq_refl)).
Defined.

(** C7 (as stated). At a text of 4500 code units under a 12-unit prefix
    the third chunk is 512 code units long, not 500. *)
Lemma example_4500_third_chunk_not_500 :
  let text := repeat 97%N 4500 in
  let name := lit "Jarvis" in
  let out := sent (calls_of (sendMessage name (live obliging_client)
                               (lit "dc:42") text)) in
  length text = 4500 /\
  length (lit "**" ++ name ++ lit ":** ") = 12 /\
  map length out = [2000; 2000; 512] /\
  map length out <> [2000; 2000; 500].
Proof.
  cbv zeta.
  assert (Hout : map length
                   (sent (calls_of (sendMessage (lit "Jarvis") (live obliging_client)
                                      (lit "dc:42") (repeat 97%N 4500))))
                 = [2000; 2000; 512]) by (vm_compute; reflexivity).
  split; [apply repeat_length|]. split; [reflexivity|]. split; [exact Hout|].
  rewrite Hout. intros Heq.
  assert (Hlast : last [2000; 2000; 512] = last [2000; 2000; 500])
    by (by rewrite Heq).
  cbn [last] in Hlast. injection Hlast. lia.
Qed.

(** C7 (amended). A text of 4500 code units under a 12-unit prefix is sent
    as three chunks of 2000, 2000 and 512 code units: the prefix and the
    first 1988 of the text, the next 2000, and the last 512. *)
Theorem example_4500_chunks (ASSISTANT_NAME : jsstring) (this : DiscordChannel)
    (c : Client) (jid text name : jsstring) :
  client this = Some c -> connected this = true ->
  fetch_reply c [] (channelId_of jid) = Normal (Some (TextChannel name)) ->
  (forall tr ch content, send_reply c tr ch content = Normal tt) ->
  length text = 4500 ->
  length (lit "**" ++ ASSISTANT_NAME ++ lit ":** ") = 12 ->
  let prefix := lit "**" ++ ASSISTANT_NAME ++ lit ":** " in
  let out := sent (calls_of (sendMessage ASSISTANT_NAME this jid text)) in
  out = [prefix ++ take 1988 text; take 2000 (drop 1988 text); drop 3988 text]
  /\ map length out = [2000; 2000; 512].
Proof.
  intros Hclient Hconn Hfetch Hsend Htext Hprefix prefix out.
  fold prefix in Hprefix.
  assert (Hout : out = [prefix ++ take 1988 text; take 2000 (drop 1988 text);
                        drop 3988 text]).
  { unfold out, calls_of.
    rewrite (sendMessage_delivered _ _ c _ _ name) by done.
    cbn [snd]. rewrite !sent_app, sent_sends. cbn [sent omap app].
    rewrite app_nil_r.
    replace (prefixed_text ASSISTANT_NAME text) with (prefix ++ text)
      by (unfold prefixed_text, prefix; by rewrite <- !app_assoc).
    rewrite consecutive_slices_cons by (rewrite ?length_app; lia).
    rewrite take_app, drop_app, Hprefix.
    rewrite (take_ge prefix), (drop_ge prefix) by lia.
    replace (2000 - 12) with 1988 by lia. cbn [app].
    rewrite consecutive_slices_cons by (rewrite ?length_drop; lia).
    rewrite drop_drop. replace (1988 + 2000) with 3988 by lia.
    rewrite consecutive_slices_short by (rewrite ?length_drop; lia).
    reflexivity. }
  split; [exact Hout|]. rewrite Hout. cbn [map].
  rewrite length_app, !length_take, !length_drop, Hprefix, Htext.
  repeat f_equal; lia.
Qed.

Lemma example_4500_chunks_witness :
  map length (sent (calls_of (sendMessage (lit "Jarvis") (live obliging_client)
                                (lit "dc:42") (repeat 97%N 4500))))
  = [2000; 2000; 512].
Proof.
  exact (proj2 (example_4500_chunks (lit "Jarvis") (live obliging_client)
                  obliging_client (lit "dc:42") (repeat 97%N 4500) (lit "general")
                  eq_refl eq_refl eq_refl (fun _ _ _ => eq_refl)
                  (repeat_length _ _) eq_refl)).
Defined.

End DiscordProps.

(* ===================================================================== *)
(** ** Properties of the task producer *)
(* ===================================================================== *)

Module SyncUpstreamFacts.
Import SyncUpstream.
Local Open Scope string_scope.

Lemma list_ascii_of_string_append (a b : string) :
  list_ascii_of_string (a ++ b)
  = (list_ascii_of_string a ++ list_ascii_of_string b)%list.
Proof. induction a as [|x a IH]; simpl; [reflexivity | by rewrite IH]. Qed.

Lemma length_list_ascii_of_string (s : string) :
  length (list_ascii_of_string s) = String.length s.
Proof. induction s as [|x s IH]; simpl; [reflexivity | by rewrite IH]. Qed.

Lemma list_ascii_of_string_inj (a b : string) :
  list_ascii_of_string a = list_ascii_of_string b -> a = b.
Proof.
  intros H. rewrite <- (string_of_list_ascii_of_string a),
    <- (string_of_list_ascii_of_string b). by rewrite H.
Qed.

(** Two concatenations with suffixes of one length agree part by part. *)
Lemma append_inj_suffix (a b c d : string) :
  String.length b = String.length d ->
  a ++ b = c ++ d -> a = c /\ b = d.
Proof.
  intros Hlen Heq. apply (f_equal list_ascii_of_string) in Heq.
  rewrite !list_ascii_of_string_append in Heq.
  apply app_inj_2 in Heq as [Hac Hbd].
  - split; by apply list_ascii_of_string_inj.
  - by rewrite !length_list_ascii_of_string.
Qed.

Lemma append_inj_prefix (a b c : string) : a ++ b = a ++ c -> b = c.
Proof. induction a as [|x a IH]; simpl; [done|]. intros [= H]. by apply IH. Qed.

Lemma length_zero_padded (width : nat) (n : N) :
  String.length (zero_padded width n) = width.
Proof.
  revert n. induction width as [|w IH]; intros n; [reflexivity|].
  cbn [zero_padded].
  rewrite <- length_list_ascii_of_string, list_ascii_of_string_append,
    length_app, length_list_ascii_of_string, IH. simpl. lia.
Qed.

Lemma digit_char_inj (d e : N) :
  (d < 10)%N -> (e < 10)%N -> digit_char d = digit_char e -> d = e.
Proof.
  intros Hd He Heq. unfold digit_char in Heq.
  apply (f_equal N_of_ascii) in Heq.
  rewrite !N_ascii_embedding in Heq by lia. lia.
Qed.

(** Below ten to the [width], the padded rendering determines the number. *)
Lemma zero_padded_inj (width : nat) (n k : N) :
  (n < 10 ^ N.of_nat width)%N -> (k < 10 ^ N.of_nat width)%N ->
  zero_padded width n = zero_padded width k -> n = k.
Proof.
  revert n k. induction width as [|w IH]; intros n k Hn Hk Heq.
  - simpl in Hn, Hk. lia.
  - cbn [zero_padded] in Heq.
    apply append_inj_suffix in Heq as [Hhigh Hlow]; [|reflexivity].
    injection Hlow as Hlow.
    assert (Hpow : (10 ^ N.of_nat (S w) = 10 * 10 ^ N.of_nat w)%N)
      by (rewrite Nat2N.inj_succ; apply N.pow_succ_r'). 
    rewrite Hpow in Hn, Hk.
    apply digit_char_inj in Hlow; [|by apply N.mod_lt|by apply N.mod_lt].
    apply IH in Hhigh;
      [|apply N.Div0.div_lt_upper_bound; lia
       |apply N.Div0.div_lt_upper_bound; lia].
    rewrite (N.div_mod n 10), (N.div_mod k 10) by done. lia.
Qed.

Lemma to_int_proper (z : Z) :
  Z.to_int z <> Decimal.Pos Decimal.Nil /\ Z.to_int z <> Decimal.Neg Decimal.Nil.
Proof.
  destruct z as [|p|p]; simpl; split; try discriminate;
    intros [= H]; by apply (Unsigned.to_uint_nonnil p).
Qed.

(** [%s] determines the seconds. *)
Lemma string_of_seconds_inj (a b : Z) :
  NilZero.string_of_int (Z.to_int a) = NilZero.string_of_int (Z.to_int b) ->
  a = b.
Proof.
  intros Heq. apply DecimalZ.to_int_inj.
  destruct (to_int_proper a) as [Ha1 Ha2], (to_int_proper b) as [Hb1 Hb2].
  pose proof (NilZero.isi _ Ha1 Ha2) as Ha.
  pose proof (NilZero.isi _ Hb1 Hb2) as Hb.
  rewrite Heq, Hb in Ha. by injection Ha.
Qed.

(** [%s%N] determines the clock reading. *)
Lemma date_sN_inj (t1 t2 : clock) :
  valid_clock t1 -> valid_clock t2 -> date_sN t1 = date_sN t2 -> t1 = t2.
Proof.
  unfold valid_clock, date_sN, date_s, date_N. intros H1 H2 Heq.
  apply append_inj_suffix in Heq as [Hs HN];
    [|by rewrite !length_zero_padded].
  apply string_of_seconds_inj in Hs.
  apply zero_padded_inj in HN; [|done|done].
  destruct t1, t2; simpl in *; by subst.
Qed.

Lemma task_file_inj (dir : string) (t1 t2 : clock) :
  valid_clock t1 -> valid_clock t2 ->
  task_file dir t1 = task_file dir t2 -> t1 = t2.
Proof.
  unfold task_file. intros H1 H2 Heq.
  apply append_inj_prefix, append_inj_prefix in Heq.
  apply append_inj_suffix in Heq as [Heq _]; [|reflexivity].
  by apply date_sN_inj.
Qed.

End SyncUpstreamFacts.

Module SyncUpstreamProps.
Import SyncUpstream Samples SyncUpstreamFacts.
Local Open Scope string_scope.

(** C8. Two runs of [write_ipc_task] whose [date +%s%N] readings differ
    build different file names; so when both runs complete, the second
    leaves the file of the first as it was, and each file holds the task
    its own run wrote: neither replaced the other. *)
Theorem distinct_timestamps_distinct_files (IPC_TASKS_DIR : string)
    (t1 t2 : clock) :
  valid_clock t1 -> valid_clock t2 -> t1 <> t2 ->
  task_file IPC_TASKS_DIR t1 <> task_file IPC_TASKS_DIR t2 /\
  forall (env1 env2 : option string)
         (prompt1 next_run1 prompt2 next_run2 : string)
         (fs fs1 fs2 : gmap string file),
    write_ipc_task env1 IPC_TASKS_DIR prompt1 next_run1 t1 fs = Some fs1 ->
    write_ipc_task env2 IPC_TASKS_DIR prompt2 next_run2 t2 fs1 = Some fs2 ->
    fs2 !! task_file IPC_TASKS_DIR t1 = fs1 !! task_file IPC_TASKS_DIR t1 /\
    fs2 !! task_file IPC_TASKS_DIR t1
    = Some {| mode := mode_666;
              data := {| type := "schedule_task"; prompt := env1;
                         schedule_type := "once"; schedule_value := next_run1;
                         targetJid := DISCORD_JID |} |} /\
    fs2 !! task_file IPC_TASKS_DIR t2
    = Some {| mode := mode_666;
              data := {| type := "schedule_task"; prompt := env2;
                         schedule_type := "once"; schedule_value := next_run2;
                         targetJid := DISCORD_JID |} |}.
Proof.
  intros H1 H2 Hne.
  assert (Hfiles : task_file IPC_TASKS_DIR t1 <> task_file IPC_TASKS_DIR t2)
    by (intros Heq; by apply Hne, (task_file_inj IPC_TASKS_DIR)).
  split; [exact Hfiles|].
  intros env1 env2 prompt1 next_run1 prompt2 next_run2 fs fs1 fs2.
  unfold write_ipc_task.
  destruct (_ && _); [|discriminate]. intros [= <-].
  destruct (_ && _); [|discriminate]. intros [= <-].
  rewrite lookup_insert_ne by done. rewrite !lookup_insert_eq. done.
Qed.

Lemma distinct_timestamps_distinct_files_witness :
  let dir := "/srv/nanoclaw/data/ipc/main/tasks" in
  let first := {| mode := mode_666;
                  data := {| type := "schedule_task"; prompt := None;
                             schedule_type := "once";
                             schedule_value := "2026-01-01T12:00:15.000Z";
                             targetJid := DISCORD_JID |} |} in
  task_file dir noon <> task_file dir noon_later /\
  forall fs2,
    write_ipc_task None dir "second" "2026-01-01T12:00:15.000Z" noon_later
      (<[ task_file dir noon := first ]> ∅) = Some fs2 ->
    fs2 !! task_file dir noon = Some first.
Proof.
  cbv zeta.
  assert (Hnoon : valid_clock noon) by reflexivity.
  assert (Hlater : valid_clock noon_later) by reflexivity.
  assert (Hne : noon <> noon_later) by discriminate.
  destruct (distinct_timestamps_distinct_files
              "/srv/nanoclaw/data/ipc/main/tasks" noon noon_later
              Hnoon Hlater Hne) as [Hnames Hwrites].
  split; [exact Hnames|].
  intros fs2 Hsecond.
  exact (proj1 (proj2 (Hwrites None None "first" "2026-01-01T12:00:15.000Z"
                         "second" "2026-01-01T12:00:15.000Z" ∅ _ fs2
                         eq_refl Hsecond))).
Defined.

End SyncUpstreamProps.

(* ===================================================================== *)
(** ** Further properties of the adapter *)
(* ===================================================================== *)

Module DiscordExtra.
Import JS JSFacts Spec Samples Discord DiscordFacts.

Lemma sent_single_log (level : log_level) (jid : jsstring) (line : string) :
  sent [Log level jid line] = [].
Proof. reflexivity. Qed.

(** The run of the loop over the chunks, in full: either every send
    succeeded, or the loop stopped right after the first one that failed. *)
Lemma for_each_send_run (c : Client) (ch : channel) (l : list jsstring) (tr : trace) :
  match for_each l (channel_send c ch) tr with
  | (Normal _, tr') =>
      tr' = tr ++ map (ChannelSend ch) l /\
      forall j x, l !! j = Some x ->
        send_reply c (tr ++ map (ChannelSend ch) (take j l)) ch x = Normal tt
  | (Throw err, tr') =>
      exists k x, l !! k = Some x /\
        tr' = tr ++ map (ChannelSend ch) (take (S k) l) /\
        send_reply c (tr ++ map (ChannelSend ch) (take k l)) ch x = Throw err /\
        forall j y, j < k -> l !! j = Some y ->
          send_reply c (tr ++ map (ChannelSend ch) (take j l)) ch y = Normal tt
  end.
Proof.
  revert tr. induction l as [|x l IH]; intros tr.
  - simpl. split; [by rewrite app_nil_r | intros j y Hj; discriminate Hj].
  - cbn [for_each]. rewrite bind_unfold. unfold channel_send at 1.
    destruct (send_reply c tr ch x) as [[]|err] eqn:Hx.
    + specialize (IH (tr ++ [ChannelSend ch x])).
      destruct (for_each l (channel_send c ch) (tr ++ [ChannelSend ch x]))
        as [[[]|err] tr'].
      * destruct IH as [-> IH]. split; [by rewrite <- app_assoc|].
        intros [|j] y Hj; simpl in Hj.
        -- injection Hj as <-. cbn [take map]. by rewrite app_nil_r.
        -- specialize (IH j y Hj). cbn [take map].
           by rewrite <- app_assoc in IH.
      * destruct IH as (k & y & Hk & -> & Hfail & Hbefore).
        exists (S k), y. split; [exact Hk|]. cbn [take map].
        split; [by rewrite <- app_assoc|].
        split; [by rewrite <- app_assoc in Hfail|].
        intros [|j] z Hlt Hj; simpl in Hj.
        -- injection Hj as <-. cbn [take map]. by rewrite app_nil_r.
        -- cbn [take map]. assert (Hjk : j < k) by lia.
           specialize (Hbefore j z Hjk Hj).
           by rewrite <- app_assoc in Hbefore.
    + exists 0, x. split; [reflexivity|]. cbn [take map].
      rewrite take_0. cbn [map]. rewrite app_nil_r.
      split; [done|]. split; [exact Hx|]. intros j y Hlt. lia.
Qed.

Lemma for_each_send_completed (c : Client) (ch : channel) (l : list jsstring)
    (tr tr' : trace) (u : unit) :
  for_each l (channel_send c ch) tr = (Normal u, tr') ->
  tr' = tr ++ map (ChannelSend ch) l /\
  forall j x, l !! j = Some x ->
    send_reply c (tr ++ map (ChannelSend ch) (take j l)) ch x = Normal tt.
Proof. intros Hrun. pose proof (for_each_send_run c ch l tr) as H. by rewrite Hrun in H. Qed.

Lemma for_each_send_interrupted (c : Client) (ch : channel) (l : list jsstring)
    (tr tr' : trace) (err : js_error) :
  for_each l (channel_send c ch) tr = (Throw err, tr') ->
  exists k x, l !! k = Some x /\
    tr' = tr ++ map (ChannelSend ch) (take (S k) l) /\
    send_reply c (tr ++ map (ChannelSend ch) (take k l)) ch x = Throw err /\
    forall j y, j < k -> l !! j = Some y ->
      send_reply c (tr ++ map (ChannelSend ch) (take j l)) ch y = Normal tt.
Proof. intros Hrun. pose proof (for_each_send_run c ch l tr) as H. by rewrite Hrun in H. Qed.

(** X1. [setTyping] completes normally whatever the platform does, never
    sends a message, and makes no call at all when the adapter has no
    client, is not connected, or is asked to clear the indicator. *)
Theorem setTyping_best_effort (this : DiscordChannel) (jid : jsstring)
    (isTyping : bool) (history : trace) :
  fst (setTyping this jid isTyping history) = Normal tt /\
  sent (calls_of (setTyping this jid isTyping)) = [] /\
  (client this = None \/ connected this = false \/ isTyping = false ->
   calls_of (setTyping this jid isTyping) = []).
Proof.
  unfold calls_of, setTyping. split; [|split].
  - destruct (client this) as [c|], (connected this), isTyping;
      try reflexivity; apply try_catch_logger.
  - destruct (client this) as [c|], (connected this), isTyping;
      try reflexivity.
    unfold try_catch. rewrite bind_unfold. unfold channels_fetch at 1.
    destruct (fetch_reply c [] (channelId_of jid)) as [[[name|]|]|err];
      try reflexivity.
    unfold channel_sendTyping. by destruct (sendTyping_reply c _ _).
  - intros [-> | [-> | ->]]; [reflexivity| |].
    + by destruct (client this).
    + by destruct (client this), (connected this).
Qed.

Lemma setTyping_best_effort_witness :
  fst (setTyping (live failing_client) (lit "dc:42") true []) = Normal tt /\
  sent (calls_of (setTyping (live failing_client) (lit "dc:42") true)) = [] /\
  calls_of (setTyping (live obliging_client) (lit "dc:42") false) = [].
Proof.
  split; [|split].
  - exact (proj1 (setTyping_best_effort (live failing_client) (lit "dc:42") true [])).
  - exact (proj1 (proj2 (setTyping_best_effort (live failing_client)
                           (lit "dc:42") true []))).
  - exact (proj2 (proj2 (setTyping_best_effort (live obliging_client)
                           (lit "dc:42") false []))
                 (or_intror (or_intror eq_refl))).
Defined.

(** X2. On a connected adapter [setTyping(jid, true)] sends the typing
    indicator exactly when the fetch resolves to a text channel, to that
    channel and once; a rejected fetch or indicator leaves one log line, at
    debug level, and a missing or non-text channel leaves none. *)
Theorem setTyping_text_channels_only (this : DiscordChannel) (c : Client)
    (jid : jsstring) :
  client this = Some c -> connected this = true ->
  let id := channelId_of jid in
  let failed := Log Debug jid "Failed to send Discord typing indicator" in
  calls_of (setTyping this jid true)
  = match fetch_reply c [] id with
    | Normal (Some (TextChannel name)) =>
        match sendTyping_reply c [ChannelsFetch id] (TextChannel name) with
        | Normal _ => [ChannelsFetch id; ChannelSendTyping (TextChannel name)]
        | Throw _ =>
            [ChannelsFetch id; ChannelSendTyping (TextChannel name); failed]
        end
    | Normal _ => [ChannelsFetch id]
    | Throw _ => [ChannelsFetch id; failed]
    end.
Proof.
  intros Hclient Hconn id failed. unfold calls_of, setTyping.
  rewrite Hclient, Hconn. unfold try_catch.
  rewrite bind_unfold. unfold channels_fetch at 1. fold id.
  destruct (fetch_reply c [] id) as [[[name|]|]|err]; try reflexivity.
  unfold channel_sendTyping. cbn [app].
  by destruct (sendTyping_reply c _ _) as [[]|err].
Qed.

Lemma setTyping_text_channels_only_witness :
  calls_of (setTyping (live voice_client) (lit "dc:42") true)
  = [ChannelsFetch (lit "42")].
Proof.
  exact (setTyping_text_channels_only (live voice_client) voice_client
           (lit "dc:42") eq_refl eq_refl).
Defined.

(** X3. When the destination does not resolve to a text channel, a
    connected [sendMessage] sends nothing: after the fetch it logs a warning
    (no channel, or a channel of another kind) or an error (the fetch was
    rejected) and returns. *)
Theorem sendMessage_without_text_channel (ASSISTANT_NAME : jsstring)
    (this : DiscordChannel) (c : Client) (jid text : jsstring) :
  client this = Some c -> connected this = true ->
  (forall name,
     fetch_reply c [] (channelId_of jid) <> Normal (Some (TextChannel name))) ->
  calls_of (sendMessage ASSISTANT_NAME this jid text)
  = [ChannelsFetch (channelId_of jid);
     match fetch_reply c [] (channelId_of jid) with
     | Normal _ =>
         Log Warn jid "Discord channel not found or not a text channel"
     | Throw _ => Log Error jid "Failed to send Discord message"
     end]
  /\ sent (calls_of (sendMessage ASSISTANT_NAME this jid text)) = [].
Proof.
  intros Hclient Hconn Hno.
  match goal with |- ?calls = ?shape /\ _ =>
    assert (Hcalls : calls = shape); [|split; [exact Hcalls|rewrite Hcalls]]
  end.
  - unfold calls_of, sendMessage.
    rewrite Hclient, Hconn. unfold try_catch.
    rewrite bind_unfold. unfold channels_fetch at 1.
    destruct (fetch_reply c [] (channelId_of jid)) as [[[name|]|]|err];
      try reflexivity.
    by destruct (Hno name).
  - by destruct (fetch_reply c [] (channelId_of jid)).
Qed.

Lemma sendMessage_without_text_channel_witness :
  calls_of (sendMessage (lit "Andy") (live voice_client) (lit "dc:42") (lit "hi"))
  = [ChannelsFetch (lit "42");
     Log Warn (lit "dc:42") "Discord channel not found or not a text channel"]
  /\ sent (calls_of (sendMessage (lit "Andy") (live voice_client)
                       (lit "dc:42") (lit "hi"))) = [].
Proof.
  apply (sendMessage_without_text_channel (lit "Andy") (live voice_client)
           voice_client (lit "dc:42") (lit "hi") eq_refl eq_refl).
  intros name. discriminate.
Defined.

(** The run of [sendMessage] once the fetch has produced a text channel:
    the sends, then one log line that tells whether a send was rejected. *)
Lemma sendMessage_text_channel_run (ASSISTANT_NAME : jsstring)
    (this : DiscordChannel) (c : Client) (jid text name : jsstring) :
  client this = Some c -> connected this = true ->
  fetch_reply c [] (channelId_of jid) = Normal (Some (TextChannel name)) ->
  sendMessage ASSISTANT_NAME this jid text []
  = let prefixed := prefixed_text ASSISTANT_NAME text in
    let sends :=
      if (jslength prefixed <=? MAX_MESSAGE_LENGTH)%Z
      then channel_send c (TextChannel name) prefixed
      else for_each (chunk_loop prefixed []) (channel_send c (TextChannel name)) in
    match sends [ChannelsFetch (channelId_of jid)] with
    | (Normal _, tr) => (Normal tt, tr ++ [Log Info jid "Discord message sent"])
    | (Throw _, tr) =>
        (Normal tt, tr ++ [Log Error jid "Failed to send Discord message"])
    end.
Proof.
  intros Hclient Hconn Hfetch. unfold sendMessage.
  rewrite Hclient, Hconn. unfold try_catch.
  rewrite bind_unfold. unfold channels_fetch at 1. rewrite Hfetch.
  rewrite bind_unfold. cbn [app]. cbv zeta.
  destruct (jslength (prefixed_text ASSISTANT_NAME text) <=? MAX_MESSAGE_LENGTH)%Z.
  - by destruct (channel_send c _ _ _) as [[[]|err] tr].
  - by destruct (for_each _ _ _) as [[[]|err] tr].
Qed.

(** X4. With a text channel at hand, [sendMessage] sends the chunks in
    order and stops at the first send that is rejected: either every chunk
    was accepted and the run ends with the info line, or some chunk [k] was
    rejected after chunks [0..k-1] were accepted, nothing after chunk [k]
    was attempted, and the run ends with the error line. *)
Theorem sendMessage_stops_at_first_failure (ASSISTANT_NAME : jsstring)
    (this : DiscordChannel) (c : Client) (jid text name : jsstring) :
  client this = Some c -> connected this = true ->
  fetch_reply c [] (channelId_of jid) = Normal (Some (TextChannel name)) ->
  let ch := TextChannel name in
  let chunks := consecutive_slices 2000 (prefixed_text ASSISTANT_NAME text) in
  let before j :=
    [ChannelsFetch (channelId_of jid)] ++ map (ChannelSend ch) (take j chunks) in
  let calls := calls_of (sendMessage ASSISTANT_NAME this jid text) in
  (calls = before (length chunks) ++ [Log Info jid "Discord message sent"] /\
   forall j x, chunks !! j = Some x -> send_reply c (before j) ch x = Normal tt)
  \/
  (exists k x err,
     chunks !! k = Some x /\
     send_reply c (before k) ch x = Throw err /\
     (forall j y, j < k -> chunks !! j = Some y ->
        send_reply c (before j) ch y = Normal tt) /\
     calls = before (S k) ++ [Log Error jid "Failed to send Discord message"]).
Proof.
  intros Hclient Hconn Hfetch ch chunks before calls.
  subst calls before ch chunks. cbv beta. unfold calls_of.
  rewrite (sendMessage_text_channel_run _ _ c _ _ name) by done. cbv zeta.
  pose proof (prefixed_text_nonempty ASSISTANT_NAME text) as Hpos.
  destruct (Z.leb_spec (jslength (prefixed_text ASSISTANT_NAME text))
              MAX_MESSAGE_LENGTH) as [Hle|Hgt].
  - rewrite (consecutive_slices_short 2000); [|lia|];
      [|unfold jslength, MAX_MESSAGE_LENGTH in Hle; lia].
    unfold channel_send.
    destruct (send_reply c [ChannelsFetch (channelId_of jid)]
                (TextChannel name) (prefixed_text ASSISTANT_NAME text))
      as [[]|err] eqn:Hsend.
    + left. split; [reflexivity|].
      intros [|[|j]] x Hj; try discriminate Hj.
      injection Hj as <-. exact Hsend.
    + right. exists 0, (prefixed_text ASSISTANT_NAME text), err.
      split; [reflexivity|]. split; [exact Hsend|].
      split; [intros j y Hlt; lia | reflexivity].
  - rewrite chunk_loop_slices. cbn [app]. cbv beta iota.
    destruct (for_each _ _ _) as [[[]|err] tr'] eqn:Hrun; cbn [snd].
    + apply for_each_send_completed in Hrun as [-> Hall]. left.
      rewrite firstn_all. split; [reflexivity | exact Hall].
    + apply for_each_send_interrupted in Hrun
        as (k & x & Hk & -> & Hfail & Hbefore).
      right. exists k, x, err.
      split; [exact Hk|]. split; [exact Hfail|].
      split; [exact Hbefore | reflexivity].
Qed.

Lemma sendMessage_stops_at_first_failure_witness :
  let ch := TextChannel (lit "general") in
  let chunks :=
    consecutive_slices 2000 (prefixed_text (lit "Andy") (repeat 97%N 4500)) in
  let before j := [ChannelsFetch (lit "42")] ++ map (ChannelSend ch) (take j chunks) in
  let calls := calls_of (sendMessage (lit "Andy") (live flaky_client)
                           (lit "dc:42") (repeat 97%N 4500)) in
  (calls = before (length chunks) ++ [Log Info (lit "dc:42") "Discord message sent"] /\
   forall j x, chunks !! j = Some x ->
     send_reply flaky_client (before j) ch x = Normal tt)
  \/
  (exists k x err,
     chunks !! k = Some x /\
     send_reply flaky_client (before k) ch x = Throw err /\
     (forall j y, j < k -> chunks !! j = Some y ->
        send_reply flaky_client (before j) ch y = Normal tt) /\
     calls = before (S k)
             ++ [Log Error (lit "dc:42") "Failed to send Discord message"]).
Proof.
  exact (sendMessage_stops_at_first_failure (lit "Andy") (live flaky_client)
           flaky_client (lit "dc:42") (repeat 97%N 4500) (lit "general")
           eq_refl eq_refl eq_refl).
Defined.

(** X5. Every identifier the inbound handler hands to the router is the
    [dc:] identifier of the event's channel: [ownsJid] accepts it, stripping
    it gives back the channel id, and a [sendMessage] to it fetches the
    channel the event came from. *)
Theorem inbound_identifier_round_trip (RegisteredGroup : Type)
    (groups : gmap jsstring RegisteredGroup) (message : Message)
    (ASSISTANT_NAME : jsstring) (this : DiscordChannel) (text : jsstring) :
  Forall (fun e => match e with
                   | OnChatMetadata jid _ _ _ _ | OnMessage jid _ =>
                       jid = chatJid_of message
                   | _ => True
                   end)
         (calls_of (onMessageCreate RegisteredGroup groups message)) /\
  ownsJid (chatJid_of message) = true /\
  channelId_of (chatJid_of message) = channelId message /\
  (is_Some (client this) -> connected this = true ->
   fetched (calls_of (sendMessage ASSISTANT_NAME this (chatJid_of message) text))
   = [channelId message]).
Proof.
  assert (Hstrip : channelId_of (chatJid_of message) = channelId message)
    by apply (replace_anchored_match (lit "dc:") [] (channelId message)).
  split; [|split; [|split]].
  - unfold calls_of, onMessageCreate.
    destruct (bot (author message)); [by constructor|].
    destruct (_ || _); [by constructor|].
    destruct (negb _); [by constructor|].
    destruct (groups !! _); cbn; repeat constructor.
  - apply startsWith_spec. by exists (channelId message).
  - exact Hstrip.
  - intros [c Hclient] Hconn.
    destruct (sendMessage_calls ASSISTANT_NAME this c (chatJid_of message) text
                Hclient Hconn) as (ch & msgs & level & line & ->).
    rewrite !fetched_app, fetched_sends, Hstrip. reflexivity.
Qed.

Lemma inbound_identifier_round_trip_witness :
  fetched (calls_of (sendMessage (lit "Andy") (live failing_client)
                       (chatJid_of hello) (lit "hi")))
  = [lit "42"].
Proof.
  refine (proj2 (proj2 (proj2 (inbound_identifier_round_trip unit ∅ hello
            (lit "Andy") (live failing_client) (lit "hi")))) _ eq_refl).
  by exists failing_client.
Defined.

(** X6. The handler calls [onMessage] only for a non-bot author, inside a
    guild, with non-empty content, and for a chat identifier that is a key
    of [registeredGroups()]; the message it hands over carries the event's
    id, author id, sender name, content and timestamp, with both flags
    false. *)
Theorem onMessage_only_when_registered (RegisteredGroup : Type)
    (groups : gmap jsstring RegisteredGroup) (message : Message)
    (jid : jsstring) (payload : NewMessage) :
  In (OnMessage jid payload)
     (calls_of (onMessageCreate RegisteredGroup groups message)) ->
  passes_filters message /\
  jid = chatJid_of message /\
  is_Some (groups !! jid) /\
  payload = {| msg_id := id message;
               chat_jid := chatJid_of message;
               sender := user_id (author message);
               sender_name := senderName message;
               msg_content := content message;
               timestamp := toISOString (createdAt message);
               is_from_me := false;
               is_bot_message := false |}.
Proof.
  unfold passes_filters, calls_of, onMessageCreate.
  destruct (bot (author message)); [intros []|].
  destruct (truthy_opt (guildId message)); [|intros []].
  destruct (truthy (channelId message)); [|intros []].
  destruct (truthy (content message)); [|intros []].
  cbn [negb orb].
  destruct (groups !! chatJid_of message) as [group|] eqn:Hgroup; cbn.
  - intros [Hcall|[Hcall|[Hcall|[]]]]; try discriminate Hcall.
    injection Hcall as Hjid Hpayload. subst jid payload.
    split; [by repeat split|]. split; [reflexivity|].
    split; [exists group; exact Hgroup | reflexivity].
  - intros [Hcall|[Hcall|[]]]; discriminate Hcall.
Qed.

Lemma onMessage_only_when_registered_witness :
  passes_filters hello /\ is_Some (({[ lit "dc:42" := tt ]} : gmap jsstring unit)
                                     !! lit "dc:42").
Proof.
  pose proof (onMessage_only_when_registered unit {[ lit "dc:42" := tt ]} hello
                (lit "dc:42")
                {| msg_id := lit "9001"; chat_jid := lit "dc:42";
                   sender := lit "1001"; sender_name := lit "Al";
                   msg_content := lit "hello";
                   timestamp := lit "2026-01-01T00:00:00.000Z";
                   is_from_me := false; is_bot_message := false |}
                (or_intror (or_introl eq_refl))) as (Hpass & _ & Hreg & _).
  split; [exact Hpass | exact Hreg].
Defined.

(** X7. An event outside a guild, without a channel id, or with empty
    content (a message that only carries attachments, say) makes the
    handler return without any call, whether or not the chat is
    registered. *)
Theorem unsupported_events_dropped (RegisteredGroup : Type)
    (groups : gmap jsstring RegisteredGroup) (message : Message) :
  truthy_opt (guildId message) = false \/
  truthy (channelId message) = false \/
  truthy (content message) = false ->
  calls_of (onMessageCreate RegisteredGroup groups message) = [].
Proof.
  unfold calls_of, onMessageCreate.
  destruct (bot (author message)); [reflexivity|].
  intros [-> | [-> | ->]].
  - reflexivity.
  - by rewrite orb_true_r.
  - by destruct (_ || _).
Qed.

Lemma unsupported_events_dropped_witness :
  calls_of (onMessageCreate unit {[ lit "dc:42" := tt ]} dm_hello) = [].
Proof.
  exact (unsupported_events_dropped unit {[ lit "dc:42" := tt ]} dm_hello
           (or_introl eq_refl)).
Defined.

(** X8. Whatever the event and the registrations, the handler calls
    [onChatMetadata] at most once and [onMessage] at most as often as
    [onChatMetadata], and never calls the platform client. *)
Theorem onMessageCreate_call_bounds (RegisteredGroup : Type)
    (groups : gmap jsstring RegisteredGroup) (message : Message) :
  count is_onMessage (calls_of (onMessageCreate RegisteredGroup groups message))
  <= count is_onChatMetadata
       (calls_of (onMessageCreate RegisteredGroup groups message)) <= 1 /\
  count is_transport
    (calls_of (onMessageCreate RegisteredGroup groups message)) = 0.
Proof.
  unfold calls_of, onMessageCreate, count.
  destruct (bot (author message)); [simpl; repeat split; lia|].
  destruct (_ || _); [simpl; repeat split; lia|].
  destruct (negb _); [simpl; repeat split; lia|].
  destruct (groups !! _); simpl; repeat split; lia.
Qed.

(** X9. The sender name is empty only when the member's display name and
    the author's global name are absent or empty and the username is
    empty. *)
Theorem senderName_empty_iff (message : Message) :
  senderName message = [] <->
  truthy_opt (displayName <$> member message) = false /\
  truthy_opt (globalName (author message)) = false /\
  username (author message) = [].
Proof.
  unfold senderName, or_string, or_else, truthy_opt.
  destruct (member message) as [[[|c s]]|];
    destruct (globalName (author message)) as [[|c' s']|];
    destruct (username (author message)) as [|c'' s'']; cbn;
    split; try done; intros (? & ? & ?); done.
Qed.

(** A reachable adapter that says it is connected holds a client. *)
Lemma reachable_connected_client (this : DiscordChannel) :
  reachable this -> connected this = true -> is_Some (client this).
Proof.
  unfold reachable. revert this.
  apply (rtc_ind_r (fun this => connected this = true -> is_Some (client this))).
  - discriminate.
  - intros mid final Hsteps Hstep IH.
    destruct Hstep as [this fresh _|this user Hclient|this Hclient|this]; cbn.
    + intros _. by eexists.
    + intros _. exact Hclient.
    + intros _. exact Hclient.
    + unfold disconnect. destruct (client this) eqn:Hc; cbn.
      * discriminate.
      * rewrite Hc. exact IH.
Qed.

(** X10. On every adapter that a lifecycle of connect, ready, error and
    disconnect steps can produce (with [connect] called only while no
    client is held), [isConnected] tells what [sendMessage] will do: when it is true the destination is fetched
    from the platform, when it is false nothing happens but the warning. *)
Theorem isConnected_predicts_transport (ASSISTANT_NAME : jsstring)
    (this : DiscordChannel) (jid text : jsstring) :
  reachable this ->
  (isConnected this = true ->
   fetched (calls_of (sendMessage ASSISTANT_NAME this jid text))
   = [channelId_of jid]) /\
  (isConnected this = false ->
   calls_of (sendMessage ASSISTANT_NAME this jid text)
   = [Log Warn jid "Discord not connected, cannot send message"]).
Proof.
  intros Hreach. unfold isConnected. split.
  - intros Hconn.
    destruct (reachable_connected_client this Hreach Hconn) as [c Hclient].
    destruct (sendMessage_calls ASSISTANT_NAME this c jid text Hclient Hconn)
      as (ch & msgs & level & line & ->).
    by rewrite !fetched_app, fetched_sends.
  - intros Hconn. unfold calls_of, sendMessage. rewrite Hconn.
    by destruct (client this).
Qed.

Lemma isConnected_predicts_transport_witness :
  fetched (calls_of (sendMessage (lit "Andy") ready_adapter (lit "dc:42") (lit "hi")))
  = [lit "42"].
Proof.
  refine (proj1 (isConnected_predicts_transport (lit "Andy") ready_adapter
                   (lit "dc:42") (lit "hi") _) eq_refl).
  unfold reachable.
  eapply rtc_l; [by apply (step_connect _ obliging_client)|].
  eapply rtc_l; [|apply rtc_refl].
  apply step_ready. by eexists.
Defined.

(** X11. [disconnect] destroys the client exactly when one is held, and
    a second [disconnect] does nothing, so two calls in a row destroy it
    once.  Afterwards the adapter holds no client, [sendMessage] and
    [setTyping] make no call to the platform, and on an adapter the
    lifecycle can produce [isConnected] is false. *)
Theorem disconnect_shuts_down (ASSISTANT_NAME : jsstring)
    (this : DiscordChannel) (jid text : jsstring) :
  let after := fst (disconnect this) in
  snd (disconnect this)
  = match client this with
    | Some _ => [ClientDestroy; LoggerCall Info "Discord bot disconnected"]
    | None => []
    end /\
  length (List.filter is_destroy (snd (disconnect this) ++ snd (disconnect after)))
  = match client this with Some _ => 1 | None => 0 end /\
  client after = None /\
  disconnect after = (after, []) /\
  count is_transport (calls_of (sendMessage ASSISTANT_NAME after jid text)) = 0 /\
  calls_of (setTyping after jid true) = [] /\
  (reachable this -> isConnected after = false).
Proof.
  cbv zeta.
  assert (Hnone : client (fst (disconnect this)) = None)
    by (unfold disconnect; by destruct (client this) eqn:Hc).
  assert (Hagain : disconnect (fst (disconnect this)) = (fst (disconnect this), []))
    by (unfold disconnect at 1; by rewrite Hnone).
  split; [unfold disconnect; by destruct (client this)|].
  split; [rewrite Hagain; unfold disconnect; by destruct (client this)|].
  split; [exact Hnone|]. split; [exact Hagain|]. split; [|split].
  - unfold calls_of, sendMessage. by rewrite Hnone.
  - unfold calls_of, setTyping. by rewrite Hnone.
  - intros Hreach. unfold isConnected.
    destruct (connected (fst (disconnect this))) eqn:Hconn; [|reflexivity].
    assert (Hafter : reachable (fst (disconnect this)))
      by (eapply rtc_r; [exact Hreach | apply step_disconnect]).
    destruct (reachable_connected_client _ Hafter Hconn) as [c Hc].
    rewrite Hnone in Hc. discriminate Hc.
Qed.

Lemma disconnect_shuts_down_witness :
  isConnected (fst (disconnect (connect_begin new_DiscordChannel obliging_client)))
  = false.
Proof.
  refine (proj2 (proj2 (proj2 (proj2 (proj2 (proj2
            (disconnect_shuts_down (lit "Andy")
               (connect_begin new_DiscordChannel obliging_client)
               (lit "dc:42") (lit "hi"))))))) _).
  unfold reachable. eapply rtc_l; [|apply rtc_refl].
  by apply (step_connect _ obliging_client).
Defined.

(** X12. The [/channelid] command answers with one ephemeral reply, and the
    identifier it shows is the one under which the message handler looks
    the channel up: once that identifier is a key of [registeredGroups()],
    a message in the channel that passes the filters is delivered. *)
Theorem channelid_shows_registration_key (RegisteredGroup : Type)
    (groups : gmap jsstring RegisteredGroup) (interaction : Interaction)
    (message : Message) :
  isChatInputCommand interaction = true ->
  commandName interaction = lit "channelid" ->
  channelId message = interaction_channelId interaction ->
  onInteractionCreate interaction
  = [{| reply_content := channelid_reply (chatJid_of message);
        ephemeral := true |}] /\
  ownsJid (chatJid_of message) = true /\
  (passes_filters message -> is_Some (groups !! chatJid_of message) ->
   count is_onMessage
     (calls_of (onMessageCreate RegisteredGroup groups message)) = 1).
Proof.
  intros Hcmd Hname Hchan. split; [|split].
  - unfold onInteractionCreate, chatJid_of.
    rewrite Hcmd, Hname, Hchan. cbn [negb].
    by rewrite bool_decide_eq_true_2.
  - apply startsWith_spec. by exists (channelId message).
  - intros (Hbot & Hguild & Hch & Hcontent) [group Hgroup].
    unfold calls_of, onMessageCreate.
    rewrite Hbot, Hguild, Hch, Hcontent. cbn [negb orb].
    rewrite bind_unfold. unfold emit at 1. rewrite Hgroup. reflexivity.
Qed.

Lemma channelid_shows_registration_key_witness :
  onInteractionCreate channelid_command
  = [{| reply_content := channelid_reply (lit "dc:42"); ephemeral := true |}] /\
  count is_onMessage
    (calls_of (onMessageCreate unit {[ lit "dc:42" := tt ]} hello)) = 1.
Proof.
  pose proof (channelid_shows_registration_key unit {[ lit "dc:42" := tt ]}
                channelid_command hello eq_refl eq_refl eq_refl)
    as (Hreply & _ & Hdelivered).
  split; [exact Hreply|]. apply Hdelivered.
  - repeat split.
  - by exists tt.
Defined.

(** X13. The interaction handler replies at most once, only to a chat-input
    command named [channelid], and only ephemerally. *)
Theorem onInteractionCreate_replies (interaction : Interaction) :
  (onInteractionCreate interaction <> [] <->
   isChatInputCommand interaction = true /\
   commandName interaction = lit "channelid") /\
  length (onInteractionCreate interaction) <= 1 /\
  Forall (fun reply => ephemeral reply = true) (onInteractionCreate interaction).
Proof.
  unfold onInteractionCreate.
  destruct (isChatInputCommand interaction); cbn [negb].
  - destruct (bool_decide_reflect (commandName interaction = lit "channelid"))
      as [Hname|Hname]; cbn [negb].
    + split; [by split|]. split; [simpl; lia | by repeat constructor].
    + split; [split; [done | by intros [_ ?]]|].
      split; [simpl; lia | constructor].
  - split; [split; [done | by intros [? _]]|].
    split; [simpl; lia | constructor].
Qed.

End DiscordExtra.

(* ===================================================================== *)
(** ** Further properties of the upstream-sync script *)
(* ===================================================================== *)

Module SyncUpstreamExtra.
Import SyncUpstream Samples SyncUpstreamFacts.
Local Open Scope string_scope.

Lemma count_newlines_append (a b : string) :
  count_newlines (a ++ b) = count_newlines a + count_newlines b.
Proof. induction a as [|c a IH]; simpl; [reflexivity | rewrite IH; lia]. Qed.

Lemma head_lines_0 (out : string) : head_lines out 0 = "".
Proof. by destruct out. Qed.

(** After [$(... | head -n)] with [n >= 1] fewer than [n] newlines are
    left: the [n]-th newline, if [head] kept one, ends the output and is
    stripped. *)
Lemma count_newlines_head (out : string) (n : nat) :
  count_newlines (command_substitution (head_lines out (S n))) <= n.
Proof.
  revert n. induction out as [|c out IH]; intros n; [simpl; lia|].
  cbn [head_lines command_substitution].
  destruct (Ascii.eqb c newline) eqn:Hc; cbn [andb]; cbv iota.
  - destruct (String.eqb_spec (command_substitution (head_lines out n)) "")
      as [_|Hrest]; [simpl; lia|].
    destruct n as [|n]; [by rewrite head_lines_0 in Hrest|].
    simpl. rewrite Hc. specialize (IH n). lia.
  - simpl. rewrite Hc. specialize (IH n). lia.
Qed.

Lemma count_newlines_uint (d : Decimal.uint) :
  count_newlines (NilEmpty.string_of_uint d) = 0.
Proof. induction d; simpl; done. Qed.

Lemma count_newlines_decimal (n : nat) : count_newlines (decimal n) = 0.
Proof.
  unfold decimal, NilZero.string_of_uint.
  destruct (Nat.to_uint n) eqn:Hd; try reflexivity;
    rewrite <- Hd; apply count_newlines_uint.
Qed.

(** X14. The prompt that the script builds never reaches the task file:
    two runs that end with status 0 on the same clock reading, run time
    and environment write the same file whatever git reported, and the
    [prompt] of that file is the [TASK_PROMPT] the script inherited, or is
    absent when it inherited none. *)
Theorem task_file_independent_of_git (TASK_PROMPT_env : option string)
    (IPC_TASKS_DIR : string) (git1 git2 : git_outcomes) (next_run : string)
    (now : clock) (run1 run2 : run_result) :
  sync_upstream TASK_PROMPT_env IPC_TASKS_DIR git1 next_run now = Some run1 ->
  sync_upstream TASK_PROMPT_env IPC_TASKS_DIR git2 next_run now = Some run2 ->
  exit_status run1 = 0%N -> exit_status run2 = 0%N ->
  written run1 = written run2 /\
  written run1
  = {[ task_file IPC_TASKS_DIR now :=
         {| mode := mode_666;
            data := {| type := "schedule_task"; prompt := TASK_PROMPT_env;
                       schedule_type := "once"; schedule_value := next_run;
                       targetJid := DISCORD_JID |} |} ]}.
Proof.
  assert (Hone : forall git run,
    sync_upstream TASK_PROMPT_env IPC_TASKS_DIR git next_run now = Some run ->
    exit_status run = 0%N ->
    written run
    = {[ task_file IPC_TASKS_DIR now :=
           {| mode := mode_666;
              data := {| type := "schedule_task"; prompt := TASK_PROMPT_env;
                         schedule_type := "once"; schedule_value := next_run;
                         targetJid := DISCORD_JID |} |} ]}).
  { intros git run. unfold sync_upstream, write_ipc_task.
    destruct (N.eqb_spec (fetch_status git) 0) as [Hfetch|Hfetch]; cbn [negb];
      [|by intros [= <-] Hexit].
    destruct (String.eqb (command_substitution (new_commits_out git)) "").
    { destruct (_ && _); [|discriminate]. by intros [= <-] _. }
    destruct (N.eqb_spec (merge_status git) 0) as [Hmerge|Hmerge]; cbn [negb];
      [|by intros [= <-] Hexit].
    destruct (N.eqb_spec (push_status git) 0) as [Hpush|Hpush]; cbn [negb];
      [|by intros [= <-] Hexit].
    destruct (N.eqb_spec (summary_status git) 0) as [Hsum|Hsum]; cbn [negb];
      [|by intros [= <-] Hexit].
    destruct (_ && _); [|discriminate]. by intros [= <-] _. }
  intros Hrun1 Hrun2 Hexit1 Hexit2.
  rewrite (Hone git1 run1 Hrun1 Hexit1), (Hone git2 run2 Hrun2 Hexit2).
  by split.
Qed.

Lemma task_file_independent_of_git_witness :
  let task :=
    {| mode := mode_666;
       data := {| type := "schedule_task"; prompt := None;
                  schedule_type := "once";
                  schedule_value := "2026-01-01T12:00:15.000Z";
                  targetJid := DISCORD_JID |} |} in
  let quiet := {| exit_status := 0; commands := [GitFetch; GitLogNew];
                  written := {[ task_file "/srv/tasks" noon := task ]} |} in
  let merged := {| exit_status := 0;
                   commands := [GitFetch; GitLogNew; GitMerge; GitPush;
                                GitLogSummary];
                   written := {[ task_file "/srv/tasks" noon := task ]} |} in
  sync_upstream None "/srv/tasks" nothing_new "2026-01-01T12:00:15.000Z" noon
  = Some quiet /\
  sync_upstream None "/srv/tasks" merged_one "2026-01-01T12:00:15.000Z" noon
  = Some merged /\
  written quiet = written merged.
Proof.
  cbv zeta. split; [reflexivity|]. split; [reflexivity|].
  exact (proj1 (task_file_independent_of_git None "/srv/tasks"
                  nothing_new merged_one "2026-01-01T12:00:15.000Z" noon _ _
                  eq_refl eq_refl eq_refl eq_refl)).
Defined.

(** X15. Nothing but the clock reading tells two task files apart: for
    well-formed readings the names are equal exactly when the readings
    are, and two writes with one reading leave only the second task. *)
Theorem same_reading_overwrites (IPC_TASKS_DIR : string)
    (env1 env2 : option string)
    (prompt1 next_run1 prompt2 next_run2 : string) (t1 t2 : clock)
    (fs fs1 : gmap string file) :
  valid_clock t1 -> valid_clock t2 ->
  (task_file IPC_TASKS_DIR t1 = task_file IPC_TASKS_DIR t2 <-> t1 = t2) /\
  (t1 = t2 ->
   write_ipc_task env1 IPC_TASKS_DIR prompt1 next_run1 t1 fs = Some fs1 ->
   write_ipc_task env2 IPC_TASKS_DIR prompt2 next_run2 t2 fs1
   = write_ipc_task env2 IPC_TASKS_DIR prompt2 next_run2 t2 fs).
Proof.
  intros H1 H2. split.
  - split; [by apply task_file_inj | by intros ->].
  - intros ->. unfold write_ipc_task.
    destruct (_ && _); [|discriminate]. intros [= <-].
    destruct (_ && _); [|reflexivity]. by rewrite insert_insert_eq.
Qed.

Lemma same_reading_overwrites_witness :
  write_ipc_task None "/srv/tasks" "second" "2026-01-01T12:00:15.000Z" noon
    (<[ task_file "/srv/tasks" noon :=
          {| mode := mode_666;
             data := {| type := "schedule_task"; prompt := None;
                        schedule_type := "once";
                        schedule_value := "2026-01-01T12:00:00.000Z";
                        targetJid := DISCORD_JID |} |} ]> ∅)
  = write_ipc_task None "/srv/tasks" "second" "2026-01-01T12:00:15.000Z" noon ∅.
Proof.
  refine (proj2 (same_reading_overwrites "/srv/tasks" None None
                   "first" "2026-01-01T12:00:00.000Z"
                   "second" "2026-01-01T12:00:15.000Z" noon noon ∅ _ _ _)
                eq_refl eq_refl);
    reflexivity.
Defined.

(** X16. The commit summary shows at most 25 lines of the log; the line
    [...and N more] is added only when 25 lines are shown and more than 25
    commits were counted, with [N] the count less 25, so the summary never
    exceeds 26 lines. *)
Theorem commit_summary_bounded (COMMIT_COUNT : nat) (git_log_out : string) :
  let shown := command_substitution (head_lines git_log_out 25) in
  line_count shown <= 25 /\
  line_count (commit_summary COMMIT_COUNT git_log_out) <= 26 /\
  (commit_summary COMMIT_COUNT git_log_out = shown \/
   (25 < COMMIT_COUNT /\ line_count shown = 25 /\
    commit_summary COMMIT_COUNT git_log_out
    = shown ++ String newline
                 ("...and " ++ decimal (COMMIT_COUNT - 25) ++ " more"))) /\
  (COMMIT_COUNT <= 25 -> commit_summary COMMIT_COUNT git_log_out = shown).
Proof.
  cbv zeta. pose proof (count_newlines_head git_log_out 24) as Hshown.
  unfold commit_summary, line_count.
  set (shown := command_substitution (head_lines git_log_out 25)) in *.
  destruct (Nat.leb_spec 25 (S (count_newlines shown))) as [Hfull|Hshort];
    destruct (Nat.ltb_spec 25 COMMIT_COUNT) as [Hmany|Hfew]; cbn [andb];
    repeat split; try lia; try (by left).
  - rewrite count_newlines_append. cbn [count_newlines].
    rewrite !count_newlines_append, count_newlines_decimal. simpl. lia.
  - right. repeat split; [lia | lia].
Qed.

Lemma commit_summary_bounded_witness :
  commit_summary 3 "abc1234 fix typo" = "abc1234 fix typo".
Proof.
  exact (proj2 (proj2 (proj2 (commit_summary_bounded 3 "abc1234 fix typo")))
           ltac:(lia)).
Defined.

(** X17. A run in which a git command fails (the fetch, the merge, the
    push or the summary log) ends with the status of that command and
    writes no task file, so a failed sync queues no notification; a run
    that ends with status 0 has written one file, the task file of its
    clock reading. *)
Theorem notification_only_on_success (TASK_PROMPT_env : option string)
    (IPC_TASKS_DIR : string) (git : git_outcomes) (next_run : string)
    (now : clock) (run : run_result) :
  sync_upstream TASK_PROMPT_env IPC_TASKS_DIR git next_run now = Some run ->
  (exit_status run <> 0%N ->
   written run = ∅ /\
   (exit_status run = fetch_status git \/ exit_status run = merge_status git \/
    exit_status run = push_status git \/ exit_status run = summary_status git)) /\
  (exit_status run = 0%N ->
   exists task, written run = {[ task_file IPC_TASKS_DIR now := task ]}) /\
  (fetch_status git <> 0%N -> exit_status run = fetch_status git).
Proof.
  unfold sync_upstream, write_ipc_task.
  destruct (N.eqb_spec (fetch_status git) 0) as [Hfetch|Hfetch]; cbn [negb].
  2:{ intros [= <-]. cbn. split; [by intros _; split; [|left]|].
      split; [done|done]. }
  destruct (String.eqb (command_substitution (new_commits_out git)) "").
  { destruct (_ && _); [|discriminate]. intros [= <-]. cbn.
    split; [done|]. split; [intros _; by eexists | done]. }
  destruct (N.eqb_spec (merge_status git) 0) as [Hmerge|Hmerge]; cbn [negb].
  2:{ intros [= <-]. cbn. split; [by intros _; split; [|right; left]|].
      split; [done|done]. }
  destruct (N.eqb_spec (push_status git) 0) as [Hpush|Hpush]; cbn [negb].
  2:{ intros [= <-]. cbn.
      split; [by intros _; split; [|right; right; left]|].
      split; [done|done]. }
  destruct (N.eqb_spec (summary_status git) 0) as [Hsum|Hsum]; cbn [negb].
  2:{ intros [= <-]. cbn.
      split; [by intros _; split; [|right; right; right]|].
      split; [done|done]. }
  destruct (_ && _); [|discriminate]. intros [= <-]. cbn.
  split; [done|]. split; [intros _; by eexists | done].
Qed.

Lemma notification_only_on_success_witness :
  let refused := {| exit_status := 1;
                    commands := [GitFetch; GitLogNew; GitMerge; GitPush];
                    written := ∅ |} in
  sync_upstream None "/srv/tasks" push_refused "2026-01-01T12:00:15.000Z" noon
  = Some refused /\
  exit_status refused <> 0%N /\
  written refused = ∅.
Proof.
  cbv zeta. split; [reflexivity|]. split; [discriminate|].
  exact (proj1 (proj1 (notification_only_on_success None "/srv/tasks"
                         push_refused "2026-01-01T12:00:15.000Z" noon _ eq_refl)
                      ltac:(discriminate))).
Defined.



End SyncUpstreamExtra.
